(** * NEXUS AI demo authentication: credential store, sessions, reset tokens

    A shallow embedding of [src/js/auth.js], of the field and password
    rules and the submit handlers of [src/js/validation.js], and of the
    permission check of the dashboard module.

    Modelling conventions.
    - JavaScript strings are Rocq [string]s of ASCII characters (codes 0
      to 127), where [toLowerCase] folds exactly the letters [A-Z] and
      [length] counts characters.
    - A [Date] is its millisecond time value in [Z]; the ISO string that
      is written to storage and parsed back stands for the same value.
      Every reading of the clock is an explicit argument.
    - [localStorage] is used through three fixed keys only; it is the
      record [Storage] with one optional, already parsed slot per key
      ([JSON.parse (JSON.stringify v)] is [v] for the shapes stored).
    - [DEMO_USERS] is a module-level array of mutable objects, which
      [getUsers] hands out itself when the users key is empty; the state
      therefore carries the in-memory array next to the storage.
    - The two promise-returning operations are modelled by the value
      the promise resolves to, computed on the state at the moment the
      timer fires.
    - A lookup [obj[key]] in an object literal also sees the properties of
      [Object.prototype]; which names those are is left to the host, as
      the argument [proto] of the functions that make such a lookup.
    - Of a form handler, the calls into the functions above and the
      values it reads from the inputs are modelled; what it paints on the
      page is not. *)

From Stdlib Require Import ZArith Lia Bool Ascii String.
From stdpp Require Import base list strings.

Open Scope string_scope.

(** ** Strings *)

Module Str.

Definition lower_ascii (c : ascii) : ascii :=
  let n := nat_of_ascii c in
  if (65 <=? n)%nat && (n <=? 90)%nat then ascii_of_nat (n + 32) else c.

Fixpoint toLowerCase (s : string) : string :=
  match s with
  | EmptyString => EmptyString
  | String c r => String (lower_ascii c) (toLowerCase r)
  end.

Fixpoint to_list (s : string) : list ascii :=
  match s with
  | EmptyString => []
  | String c r => c :: to_list r
  end.

(** [s.endsWith(suf)]: the last [length suf] characters of [s] are [suf]. *)
Definition endsWith (s suf : string) : bool :=
  (String.length suf <=? String.length s)%nat
  && String.eqb
       (String.substring (String.length s - String.length suf)
                         (String.length suf) s)
       suf.

(** [regex.test(s)] for a regex that is a single character class. *)
Definition test_class (cls : ascii -> bool) (s : string) : bool :=
  existsb cls (to_list s).

(** Truthiness of a string: only the empty string is falsy. *)
Definition truthy (s : string) : bool :=
  match s with EmptyString => false | _ => true end.

Definition digit36 (d : N) : ascii :=
  match String.get (N.to_nat d) "0123456789abcdefghijklmnopqrstuvwxyz" with
  | Some c => c
  | None => "0"%char
  end.

Fixpoint toString36_go (fuel : nat) (n : N) (acc : string) : string :=
  let acc' := String (digit36 (n mod 36)) acc in
  match fuel with
  | O => acc'
  | S f => if (n / 36 =? 0)%N then acc' else toString36_go f (n / 36)%N acc'
  end.

(** [n.toString(36)] for an integer [n]; the fuel is the bit size of
    [n], more than the number of base-36 digits. *)
Definition toString36 (n : Z) : string :=
  let m := Z.to_N (Z.abs n) in
  let digits := toString36_go (N.to_nat (N.size m)) m EmptyString in
  if (n <? 0)%Z then "-" ++ digits else digits.

End Str.

(** ** Data model *)

(** A stored user object. *)
Record User := mkUser {
  email : string;
  password : string;
  role : string;
  type : string;
  name : string
}.

(** The object literal [{email, role, type, name}] built on a
    successful login. *)
Record UserView := mkView {
  v_email : string;
  v_role : string;
  v_type : string;
  v_name : string
}.

(** [{...user, loginTime, expiresAt}] *)
Record Session := mkSession {
  s_user : UserView;
  loginTime : Z;
  expiresAt : Z
}.

(** [{email, token, expiresAt}] under the key [nexus_reset_token]. *)
Record ResetData := mkReset {
  r_email : string;
  r_token : string;
  r_expiresAt : Z
}.

(** [localStorage], by key: [USERS_KEY], [SESSION_KEY] and
    ['nexus_reset_token']. *)
Record Storage := mkStorage {
  ls_users : option (list User);
  ls_session : option Session;
  ls_reset : option ResetData
}.

(** The page state: the module-level [DEMO_USERS] array and the storage. *)
Record State := mkState {
  mem_demo : list User;
  storage : Storage
}.

Inductive Result (A : Type) : Type :=
| Success (a : A)
| Failure (error : string).
Arguments Success {A} a.
Arguments Failure {A} error.

Definition DEMO_USERS : list User :=
  [ mkUser "superadmin@intuvia.com" "Admin@123" "Super Admin" "enterprise" "John Smith";
    mkUser "admin@intuvia.com" "Admin@123" "Admin" "enterprise" "Sarah Johnson";
    mkUser "viewer@intuvia.com" "Viewer@123" "Viewer" "enterprise" "Mike Wilson";
    mkUser "user@example.com" "User@123" "Attendee" "normal" "Emily Davis";
    mkUser "organizer@example.com" "Organizer@123" "Organizer" "normal" "Alex Brown" ].

(** The page as first loaded in a fresh browser profile. *)
Definition fresh : State :=
  mkState DEMO_USERS (mkStorage None None None).

(** ** Error messages, named by the category they stand for *)

Definition AccountNotFound : string := "No account found with this email address.".
Definition InvalidCredentials : string := "Invalid email or password. Please try again.".
Definition NoActiveRequest : string := "Invalid or expired reset link.".
Definition TokenMismatch : string := "Invalid reset link.".
Definition Expired : string := "Reset link has expired. Please request a new one.".
Definition UserNotFound : string := "User not found.".
Definition NoEnterpriseMatch : string := "No enterprise users found for this domain.".

(** ** Array helpers *)

(** [arr.findIndex(p)]: the first index whose element satisfies [p],
    or [-1]. *)
Fixpoint findIndex {A : Type} (p : A -> bool) (l : list A) : Z :=
  match l with
  | [] => -1
  | x :: r =>
      if p x then 0
      else let i := findIndex p r in if (i =? -1)%Z then -1 else i + 1
  end%Z.

(** The callback [u => u.email.toLowerCase() === e.toLowerCase()]. *)
Definition same_email (e : string) (u : User) : bool :=
  String.eqb (Str.toLowerCase (email u)) (Str.toLowerCase e).

Definition set_password (q : string) (u : User) : User :=
  mkUser (email u) q (role u) (type u) (name u).

Definition sanitize (u : User) : UserView :=
  mkView (email u) (role u) (type u) (name u).

(** The own keys and values of the [user] object literal returned by
    the login functions, in insertion order. *)
Definition view_object (v : UserView) : list (string * string) :=
  [("email", v_email v); ("role", v_role v); ("type", v_type v); ("name", v_name v)].

(** ** Storage access *)

Definition with_users (o : option (list User)) (s : Storage) : Storage :=
  mkStorage o (ls_session s) (ls_reset s).
Definition with_session (o : option Session) (s : Storage) : Storage :=
  mkStorage (ls_users s) o (ls_reset s).
Definition with_reset (o : option ResetData) (s : Storage) : Storage :=
  mkStorage (ls_users s) (ls_session s) o.

Definition on_storage (f : Storage -> Storage) (st : State) : State :=
  mkState (mem_demo st) (f (storage st)).

(** [initAuth] *)
Definition initAuth (st : State) : State :=
  match ls_users (storage st) with
  | Some _ => st
  | None => on_storage (with_users (Some (mem_demo st))) st
  end.

(** Loading a page evaluates the script afresh, so [DEMO_USERS] is the
    literal again, and then fires [DOMContentLoaded]. *)
Definition pageLoad (st : State) : State :=
  initAuth (mkState DEMO_USERS (storage st)).

(** [getUsers] *)
Definition getUsers (st : State) : list User :=
  match ls_users (storage st) with
  | Some us => us
  | None => mem_demo st
  end.

(** [saveUsers] *)
Definition saveUsers (users : list User) (st : State) : State :=
  on_storage (with_users (Some users)) st.

(** ** Login *)

(** [validateLogin] *)
Definition validateLogin (e pw : string) (st : State) : Result UserView :=
  match find (same_email e) (getUsers st) with
  | None => Failure AccountNotFound
  | Some user =>
      if negb (String.eqb (password user) pw) then Failure InvalidCredentials
      else Success (sanitize user)
  end.

(** ** Sessions *)

Definition DAY_MS : Z := 24 * 60 * 60 * 1000.

(** [createSession]; [t_login] is the reading of [new Date()] and
    [t_now] the later reading of [Date.now()]. *)
Definition createSession (user : UserView) (t_login t_now : Z) (st : State) : State :=
  on_storage (with_session (Some (mkSession user t_login (t_now + DAY_MS)))) st.

(** [logout] *)
Definition logout (st : State) : State :=
  on_storage (with_session None) st.

(** [getSession]; [now] is the reading of [new Date()]. *)
Definition getSession (now : Z) (st : State) : option Session * State :=
  match ls_session (storage st) with
  | None => (None, st)
  | Some sessionData =>
      if (expiresAt sessionData <? now)%Z then (None, logout st)
      else (Some sessionData, st)
  end.

(** [isLoggedIn] *)
Definition isLoggedIn (now : Z) (st : State) : bool * State :=
  let '(s, st') := getSession now st in
  (match s with Some _ => true | None => false end, st').

(** [getUserRole] *)
Definition getUserRole (now : Z) (st : State) : option string * State :=
  let '(s, st') := getSession now st in (v_role ∘ s_user <$> s, st').

(** [getUserType] *)
Definition getUserType (now : Z) (st : State) : option string * State :=
  let '(s, st') := getSession now st in (v_type ∘ s_user <$> s, st').

(** ** Reset tokens *)

Definition HALF_HOUR_MS : Z := 30 * 60 * 1000.

(** [generateResetToken]; [rnd] is
    [Math.random().toString(36).substr(2, 9)] and [t] the reading of
    [Date.now()]. *)
Definition generateResetToken (rnd : string) (t : Z) : string :=
  "reset_" ++ rnd ++ Str.toString36 t.

Record ForgotReply := mkForgot {
  f_message : string;
  resetUrl : string
}.

(** [handleForgotPassword]; [t_tok] is the clock reading inside
    [generateResetToken], [t_now] the one taken for the expiry. *)
Definition handleForgotPassword (rnd : string) (t_tok t_now : Z) (e : string)
    (st : State) : Result ForgotReply * State :=
  match find (same_email e) (getUsers st) with
  | None => (Failure AccountNotFound, st)
  | Some user =>
      let resetToken := generateResetToken rnd t_tok in
      let resetData := mkReset (email user) resetToken (t_now + HALF_HOUR_MS) in
      (Success (mkForgot "Password reset link sent to your email."
                         ("reset-password.html?token=" ++ resetToken)),
       on_storage (with_reset (Some resetData)) st)
  end.

(** [validateResetToken]; on success the reply is the bound email. *)
Definition validateResetToken (token : string) (now : Z) (st : State)
    : Result string * State :=
  match ls_reset (storage st) with
  | None => (Failure NoActiveRequest, st)
  | Some resetData =>
      if negb (String.eqb token (r_token resetData)) then (Failure TokenMismatch, st)
      else if (r_expiresAt resetData <? now)%Z then
        (Failure Expired, on_storage (with_reset None) st)
      else (Success (r_email resetData), st)
  end.

(** The assignment [users[userIndex].password = newPassword]: the
    object at [userIndex] is changed in place, so the change is seen
    through [DEMO_USERS] too when [users] is that very array. *)
Definition assign_password (i : nat) (q : string) (st : State) : State :=
  match ls_users (storage st) with
  | Some _ => st
  | None => mkState (alter (set_password q) i (mem_demo st)) (storage st)
  end.

(** [resetPassword] *)
Definition resetPassword (token newPassword : string) (now : Z) (st : State)
    : Result string * State :=
  let '(validation, st1) := validateResetToken token now st in
  match validation with
  | Failure err => (Failure err, st1)
  | Success bound =>
      let users := getUsers st1 in
      let userIndex := findIndex (same_email bound) users in
      if (userIndex =? -1)%Z then (Failure UserNotFound, st1)
      else
        let i := Z.to_nat userIndex in
        let users' := alter (set_password newPassword) i users in
        let st2 := saveUsers users' (assign_password i newPassword st1) in
        (Success "Password changed successfully. Redirecting to login...",
         on_storage (with_reset None) st2)
  end.

(** ** Simulated single sign-on and Google login *)

(** The value [loginWithSSO(domain)] resolves to. *)
Definition loginWithSSO (domain : string) (st : State) : Result UserView :=
  let enterpriseUsers :=
    List.filter (fun u => String.eqb (type u) "enterprise"
                          && Str.endsWith (email u) ("@" ++ domain))
                (getUsers st) in
  match enterpriseUsers with
  | [] => Failure NoEnterpriseMatch
  | user :: _ => Success (sanitize user)
  end.

(** The value [loginWithGoogle(selectedEmail)] resolves to; [None] is
    the default [null]. It always has [success: true]. *)
Definition loginWithGoogle (selectedEmail : option string) (st : State)
    : Result UserView :=
  let users := getUsers st in
  let chosen := match selectedEmail with
                | Some s => if Str.truthy s then Some s else None
                | None => None
                end in
  let user :=
    match chosen with
    | Some s => find (fun u => String.eqb (email u) s) users
    | None => find (fun u => String.eqb (type u) "normal") users
    end in
  match user with
  | Some u => Success (sanitize u)
  | None =>
      Success (mkView (default "google.user@gmail.com" chosen)
                      "Attendee" "normal" "Google User")
  end.

(** ** Password rules ([validation.js]) *)

Module Validation.

Definition in_range (lo hi : nat) (c : ascii) : bool :=
  let n := nat_of_ascii c in (lo <=? n)%nat && (n <=? hi)%nat.

(** [/[A-Z]/], [/[a-z]/] and [/[0-9]/] *)
Definition isUpper : ascii -> bool := in_range 65 90.
Definition isLower : ascii -> bool := in_range 97 122.
Definition isDigit : ascii -> bool := in_range 48 57.

(** The members of the class [hasSpecial]; character 34 is the double
    quote. *)
Definition SPECIALS : list ascii :=
  Str.to_list "!@#$%^&*(),.?" ++ ["034"%char] ++ Str.to_list ":{}|<>".

Definition isSpecial (c : ascii) : bool := existsb (Ascii.eqb c) SPECIALS.

Definition MIN_LENGTH : nat := 8.

Record Requirements := mkReq {
  minLength : bool;
  hasUppercase : bool;
  hasLowercase : bool;
  hasNumber : bool;
  hasSpecial : bool
}.

(** [Object.values(requirements)] *)
Definition values (r : Requirements) : list bool :=
  [minLength r; hasUppercase r; hasLowercase r; hasNumber r; hasSpecial r].

Record Strength := mkStrength {
  requirements : Requirements;
  strength : string;
  allMet : bool;
  score : nat
}.

(** [checkPasswordStrength] *)
Definition checkPasswordStrength (pw : string) : Strength :=
  let reqs := mkReq (MIN_LENGTH <=? String.length pw)%nat
                    (Str.test_class isUpper pw)
                    (Str.test_class isLower pw)
                    (Str.test_class isDigit pw)
                    (Str.test_class isSpecial pw) in
  let metCount := length (List.filter id (values reqs)) in
  let label := if (metCount <=? 2)%nat then "weak"
               else if (metCount <=? 4)%nat then "medium"
               else "strong" in
  mkStrength reqs label (metCount =? 5)%nat metCount.

(** White space as [trim] sees it, among ASCII characters. *)
Definition isSpace (c : ascii) : bool :=
  in_range 9 13 c || (nat_of_ascii c =? 32)%nat.

(** [s.trim() === ''] *)
Definition blank (s : string) : bool := forallb isSpace (Str.to_list s).

Record Validity := mkValidity {
  valid : bool;
  message : string;
  detail : option Strength
}.

Definition MSG_required : string := "This field is required".
Definition MSG_passwordWeak : string := "Password must meet all requirements".

(** [validatePassword] *)
Definition validatePassword (pw : string) (checkStrength : bool) : Validity :=
  if negb (Str.truthy pw) || blank pw then mkValidity false MSG_required None
  else if checkStrength then
    let st := checkPasswordStrength pw in
    if negb (allMet st) then mkValidity false MSG_passwordWeak (Some st)
    else mkValidity true EmptyString (Some st)
  else mkValidity true EmptyString None.

End Validation.

(** ** The operations a page can perform on the state

    [redirectToDashboard] and [protectRoute] reach the storage through
    [getSession], [isLoggedIn] and [getUserRole] only, so their effect on
    the state is that of these operations in sequence. *)

Inductive Op : Type :=
| OpPageLoad
| OpValidateLogin (e pw : string)
| OpCreateSession (user : UserView) (t_login t_now : Z)
| OpGetSession (now : Z)
| OpIsLoggedIn (now : Z)
| OpGetUserRole (now : Z)
| OpGetUserType (now : Z)
| OpLogout
| OpForgotPassword (rnd : string) (t_tok t_now : Z) (e : string)
| OpValidateResetToken (token : string) (now : Z)
| OpResetPassword (token newPassword : string) (now : Z)
| OpLoginWithSSO (domain : string)
| OpLoginWithGoogle (selectedEmail : option string).

(** The state after an operation. The three login functions only read. *)
Definition exec (o : Op) (st : State) : State :=
  match o with
  | OpPageLoad => pageLoad st
  | OpValidateLogin _ _ => st
  | OpCreateSession u t1 t2 => createSession u t1 t2 st
  | OpGetSession now => (getSession now st).2
  | OpIsLoggedIn now => (isLoggedIn now st).2
  | OpGetUserRole now => (getUserRole now st).2
  | OpGetUserType now => (getUserType now st).2
  | OpLogout => logout st
  | OpForgotPassword rnd t1 t2 e => (handleForgotPassword rnd t1 t2 e st).2
  | OpValidateResetToken tok now => (validateResetToken tok now st).2
  | OpResetPassword tok q now => (resetPassword tok q now st).2
  | OpLoginWithSSO _ => st
  | OpLoginWithGoogle _ => st
  end.

(** States the pages can be in, starting from a fresh profile. *)
Inductive reachable : State -> Prop :=
| reach_fresh : reachable fresh
| reach_step o st : reachable st -> reachable (exec o st).

(** ** Routing and display helpers of [auth.js] *)

(** A call either returns a value or throws a [TypeError]. *)
Inductive Outcome (A : Type) : Type :=
| Returns (a : A)
| ThrowsTypeError.
Arguments Returns {A} a.
Arguments ThrowsTypeError {A}.

(** The own property [key] of an object literal whose properties are
    [table]. *)
Fixpoint own {A : Type} (key : string) (table : list (string * A)) : option A :=
  match table with
  | [] => None
  | (k, v) :: rest => if String.eqb k key then Some v else own key rest
  end.

(** What [obj[key] || fallback] evaluates to for an object literal
    with truthy own values: the own value, else the value inherited
    from [Object.prototype] (a function or an object, hence truthy, and
    not a string or an array), else the fallback. The host decides which
    names [Object.prototype] has; it is the argument [proto] of the
    functions below. *)
Inductive Lookup (A : Type) : Type :=
| Value (a : A)
| Inherited (key : string).
Arguments Value {A} a.
Arguments Inherited {A} key.

Definition lookup_or {A : Type} (proto : string -> bool) (table : list (string * A))
    (key : string) (fallback : A) : Lookup A :=
  match own key table with
  | Some v => Value v
  | None => if proto key then Inherited key else Value fallback
  end.

Definition dashboards : list (string * string) :=
  [ ("Super Admin", "dashboard-superadmin.html");
    ("Admin", "dashboard-admin.html");
    ("Viewer", "dashboard-viewer.html");
    ("Attendee", "dashboard-user.html");
    ("Organizer", "dashboard-user.html") ].

(** [getDashboardUrl] *)
Definition getDashboardUrl (proto : string -> bool) (role : string) : Lookup string :=
  lookup_or proto dashboards role "dashboard-user.html".

(** [redirectToDashboard]; the reply is the value assigned to
    [window.location.href], if any. *)
Definition redirectToDashboard (proto : string -> bool) (now : Z) (st : State)
    : option (Lookup string) * State :=
  let '(session, st') := getSession now st in
  (getDashboardUrl proto ∘ v_role ∘ s_user <$> session, st').

(** [allowedRoles.includes(userRole)] for an array of strings and a
    role that is a string or [null]. *)
Definition includes (allowedRoles : list string) (userRole : option string) : bool :=
  match userRole with
  | Some r => existsb (String.eqb r) allowedRoles
  | None => false
  end.

Record RouteReply := mkRoute {
  allowed : bool;
  navigate : option string
}.

(** [protectRoute]; [now1] is the clock reading inside [isLoggedIn] and
    [now2] the one inside [getUserRole]. *)
Definition protectRoute (allowedRoles : list string) (now1 now2 : Z) (st : State)
    : RouteReply * State :=
  let '(logged, st1) := isLoggedIn now1 st in
  if negb logged then (mkRoute false (Some "index.html"), st1)
  else
    let '(userRole, st2) := getUserRole now2 st1 in
    if (0 <? length allowedRoles)%nat && negb (includes allowedRoles userRole)
    then (mkRoute false None, st2)
    else (mkRoute true None, st2).

Module Initials.

Definition upper_ascii (c : ascii) : ascii :=
  let n := nat_of_ascii c in
  if (97 <=? n)%nat && (n <=? 122)%nat then ascii_of_nat (n - 32) else c.

Fixpoint toUpperCase (s : string) : string :=
  match s with
  | EmptyString => EmptyString
  | String c r => String (upper_ascii c) (toUpperCase r)
  end.

(** [s.split(' ')], as the first part and the list of the others. *)
Fixpoint split_space (s : string) : string * list string :=
  match s with
  | EmptyString => (EmptyString, [])
  | String c r =>
      let '(first, others) := split_space r in
      if Ascii.eqb c " " then (EmptyString, first :: others)
      else (String c first, others)
  end.

Definition split (s : string) : list string :=
  let '(first, others) := split_space s in first :: others.

(** [s[0]]: a one-character string, or [undefined] ([None]). *)
Definition first_char (s : string) : option string :=
  match s with
  | EmptyString => None
  | String c _ => Some (String c EmptyString)
  end.

(** [a + b] for operands that are strings or [undefined]; [None] is the
    number [NaN] that [undefined + undefined] gives. *)
Definition plus (a b : option string) : option string :=
  match a, b with
  | Some x, Some y => Some (x ++ y)
  | Some x, None => Some (x ++ "undefined")
  | None, Some y => Some ("undefined" ++ y)
  | None, None => None
  end.

(** [getUserInitials] for a string argument; a number has no
    [toUpperCase], so calling it throws. *)
Definition getUserInitials (name : string) : Outcome string :=
  if negb (Str.truthy name) then Returns "?"
  else
    let parts := split name in
    match parts with
    | p0 :: p1 :: _ =>
        match plus (first_char p0) (first_char p1) with
        | Some s => Returns (toUpperCase s)
        | None => ThrowsTypeError
        end
    | _ => Returns (toUpperCase (substring 0 2 name))
    end.

End Initials.

(** ** Permissions of the dashboard module *)

Definition permissions : list (string * list string) :=
  [ ("Super Admin", ["events"; "admins"; "budget"; "sales"; "logs"; "settings";
                     "create-event"; "edit-event"; "delete-event"]);
    ("Admin", ["events"; "logs"; "create-event"; "edit-event"]);
    ("Viewer", ["events"; "logs"]);
    ("Organizer", ["events"; "create-event"; "edit-event"]);
    ("Attendee", ["events"]) ].

(** [hasAccess]; a [null] role is the property name ["null"]. An
    inherited value has no [includes] method, so calling it throws. *)
Definition hasAccess (proto : string -> bool) (feature : string) (now : Z) (st : State)
    : Outcome bool * State :=
  let '(role, st') := getUserRole now st in
  match lookup_or proto permissions (default "null" role) [] with
  | Value rolePermissions => (Returns (existsb (String.eqb feature) rolePermissions), st')
  | Inherited _ => (ThrowsTypeError, st')
  end.

(** ** Regular expressions *)

Module Regex.

Inductive re : Type :=
| Void
| Eps
| Class (f : ascii -> bool)
| Cat (a b : re)
| Alt (a b : re)
| Star (a : re).

(** [r+] and a literal character. *)
Definition Plus (r : re) : re := Cat r (Star r).
Definition Chr (c : ascii) : re := Class (Ascii.eqb c).

Fixpoint nullable (r : re) : bool :=
  match r with
  | Void => false
  | Eps => true
  | Class _ => false
  | Cat a b => nullable a && nullable b
  | Alt a b => nullable a || nullable b
  | Star _ => true
  end.

Fixpoint deriv (c : ascii) (r : re) : re :=
  match r with
  | Void => Void
  | Eps => Void
  | Class f => if f c then Eps else Void
  | Cat a b =>
      if nullable a then Alt (Cat (deriv c a) b) (deriv c b)
      else Cat (deriv c a) b
  | Alt a b => Alt (deriv c a) (deriv c b)
  | Star a => Cat (deriv c a) (Star a)
  end.

Fixpoint accepts (r : re) (s : list ascii) : bool :=
  match s with
  | [] => nullable r
  | c :: s' => accepts (deriv c r) s'
  end.

(** [/^r$/.test(s)] *)
Definition test_whole (r : re) (s : string) : bool := accepts r (Str.to_list s).

(** The strings a regular expression denotes. *)
Inductive lang : re -> list ascii -> Prop :=
| lang_eps : lang Eps []
| lang_class f c : f c = true -> lang (Class f) [c]
| lang_cat a b s t : lang a s -> lang b t -> lang (Cat a b) (s ++ t)%list
| lang_alt_l a b s : lang a s -> lang (Alt a b) s
| lang_alt_r a b s : lang b s -> lang (Alt a b) s
| lang_star_nil a : lang (Star a) []
| lang_star_cons a s t : lang a s -> lang (Star a) t -> lang (Star a) (s ++ t)%list.

End Regex.

(** ** Field rules of [validation.js] *)

Module Fields.

(** The class [[^\s@]] *)
Definition emailChar (c : ascii) : bool :=
  negb (Validation.isSpace c || Ascii.eqb c "@").

(** [PATTERNS.email], between its anchors. *)
Definition EMAIL : Regex.re :=
  Regex.Cat (Regex.Plus (Regex.Class emailChar))
    (Regex.Cat (Regex.Chr "@")
       (Regex.Cat (Regex.Plus (Regex.Class emailChar))
          (Regex.Cat (Regex.Chr ".") (Regex.Plus (Regex.Class emailChar))))).

Definition MSG_email : string := "Please enter a valid email address".
Definition MSG_passwordMismatch : string := "Passwords do not match".

(** [!value || value.trim() === ''] *)
Definition missing (value : string) : bool :=
  negb (Str.truthy value) || Validation.blank value.

Definition invalid (msg : string) : Validation.Validity :=
  Validation.mkValidity false msg None.
Definition ok : Validation.Validity :=
  Validation.mkValidity true EmptyString None.

(** [validateEmail] *)
Definition validateEmail (e : string) : Validation.Validity :=
  if missing e then invalid Validation.MSG_required
  else if negb (Regex.test_whole EMAIL e) then invalid MSG_email
  else ok.

(** [validateRequired] *)
Definition validateRequired (value : string) : Validation.Validity :=
  if missing value then invalid Validation.MSG_required else ok.

(** [validatePasswordMatch] *)
Definition validatePasswordMatch (pw confirmPassword : string) : Validation.Validity :=
  if missing confirmPassword then invalid Validation.MSG_required
  else if negb (String.eqb pw confirmPassword) then invalid MSG_passwordMismatch
  else ok.

End Fields.

(** ** What the form handlers do to the storage

    The submit handlers validate the input values, wait, and then read
    the input values again for the call that touches the storage. The
    values at submit time and after the wait are separate arguments; the
    changes to the page itself are left out. *)

Module Forms.

(** A handler either stops at the field checks or goes on to the call,
    whose result it shows. *)
Inductive Reply (A : Type) : Type :=
| Blocked
| Called (r : Result A).
Arguments Blocked {A}.
Arguments Called {A} r.

(** The submit handler of [initLoginForm]: [e0] and [p0] are the input
    values at submit time, [e1] and [p1] those after the wait. *)
Definition loginSubmit (e0 p0 e1 p1 : string) (t_login t_now : Z) (st : State)
    : Reply UserView * State :=
  let emailResult := Fields.validateEmail e0 in
  let passwordResult := Fields.validateRequired p0 in
  if negb (Validation.valid emailResult) || negb (Validation.valid passwordResult)
  then (Blocked, st)
  else
    match validateLogin e1 p1 st with
    | Failure err => (Called (Failure err), st)
    | Success user => (Called (Success user), createSession user t_login t_now st)
    end.

(** The submit handler of [initResetPasswordForm], for the token of
    the page: [pw0] and [confirm0] are the input values at submit time,
    [pw1] the password input after the wait. *)
Definition resetSubmit (token pw0 confirm0 pw1 : string) (now : Z) (st : State)
    : Reply string * State :=
  let passwordResult := Validation.validatePassword pw0 true in
  let confirmResult := Fields.validatePasswordMatch pw0 confirm0 in
  if negb (Validation.valid passwordResult) || negb (Validation.valid confirmResult)
  then (Blocked, st)
  else let '(result, st') := resetPassword token pw1 now st in (Called result, st').

End Forms.

(** ** Vocabulary of the statements *)

(** [x] is the first element of [l] that satisfies [p], at index [i]. *)
Definition first_at {A : Type} (p : A -> bool) (l : list A) (i : nat) (x : A) : Prop :=
  l !! i = Some x /\ p x = true /\
  forall j y, (j < i)%nat -> l !! j = Some y -> p y = false.

(** [u]'s email equals [e] up to letter case. *)
Definition matches (e : string) (u : User) : Prop :=
  Str.toLowerCase (email u) = Str.toLowerCase e.

(** [u], at index [i], is the first stored user whose email matches [e]. *)
Definition first_match (e : string) (users : list User) (i : nat) (u : User) : Prop :=
  users !! i = Some u /\ matches e u /\
  forall j u', (j < i)%nat -> users !! j = Some u' -> ~ matches e u'.

(** No two stored users have emails equal up to letter case. *)
Definition unique_emails (users : list User) : Prop :=
  NoDup ((Str.toLowerCase ∘ email) <$> users).

(** [u] is an enterprise user whose email ends in ["@"] followed by [d]. *)
Definition enterprise_at (d : string) (u : User) : Prop :=
  type u = "enterprise" /\ exists pre, email u = pre ++ "@" ++ d.

(** [u], at index [i], is the first enterprise user of domain [d]. *)
Definition first_enterprise (d : string) (users : list User) (i : nat) (u : User) : Prop :=
  users !! i = Some u /\ enterprise_at d u /\
  forall j u', (j < i)%nat -> users !! j = Some u' -> ~ enterprise_at d u'.

(** The page that reads the reset link takes the token from its query
    string: [r] carries the token [t]. *)
Definition yields_token (r : ForgotReply) (t : string) : Prop :=
  resetUrl r = "reset-password.html?token=" ++ t.

(** Some character of [s] has the property [P]. *)
Definition contains (P : ascii -> Prop) (s : string) : Prop :=
  exists c, c ∈ Str.to_list s /\ P c.

(** The character lies between [lo] and [hi] in code order. *)
Definition between (lo hi c : ascii) : Prop :=
  (nat_of_ascii lo <= nat_of_ascii c <= nat_of_ascii hi)%nat.

(** The five password requirements. *)
Definition long_enough (s : string) : Prop := (8 <= String.length s)%nat.
Definition has_uppercase : string -> Prop := contains (between "A" "Z").
Definition has_lowercase : string -> Prop := contains (between "a" "z").
Definition has_digit : string -> Prop := contains (between "0" "9").
Definition has_symbol : string -> Prop := contains (fun c => c ∈ Validation.SPECIALS).

(** The emails of the stored users are those of the seed list, in the
    store and in memory. *)
Definition seed_emails (st : State) : Prop :=
  email <$> mem_demo st = email <$> DEMO_USERS /\
  forall us, ls_users (storage st) = Some us -> email <$> us = email <$> DEMO_USERS.

(** The stored users are the seed users up to their passwords, in the
    store and in memory, and the in-memory list is the literal as long
    as nothing has been persisted. *)
Definition seeded (st : State) : Prop :=
  sanitize <$> mem_demo st = sanitize <$> DEMO_USERS
  /\ (forall us, ls_users (storage st) = Some us ->
        sanitize <$> us = sanitize <$> DEMO_USERS)
  /\ (ls_users (storage st) = None -> mem_demo st = DEMO_USERS).

(** The four pages [getDashboardUrl] knows. *)
Definition DASHBOARD_PAGES : list string :=
  ["dashboard-superadmin.html"; "dashboard-admin.html";
   "dashboard-viewer.html"; "dashboard-user.html"].

(** The string has no space in it. *)
Definition no_space (w : string) : Prop := " "%char ∉ Str.to_list w.

(** A non-empty string without white space and without ["@"]. *)
Definition plain (w : string) : Prop :=
  w <> EmptyString
  /\ forall c, c ∈ Str.to_list w -> Validation.isSpace c = false /\ c <> "@"%char.

(** [local@domain.tld]: three plain parts around an ["@"] and a dot. *)
Definition email_shape (e : string) : Prop :=
  exists l a b, e = l ++ "@" ++ a ++ "." ++ b /\ plain l /\ plain a /\ plain b.

(** Every character of the string, if any, is white space. *)
Definition all_space (s : string) : Prop :=
  forall c, c ∈ Str.to_list s -> Validation.isSpace c = true.

(** The password meets all five requirements. *)
Definition meets_all (pw : string) : Prop :=
  long_enough pw /\ has_uppercase pw /\ has_lowercase pw
  /\ has_digit pw /\ has_symbol pw.

(** The value of a base-36 digit and of a string of such digits, most
    significant digit first: what [toString36] is read back with. *)
Definition digit_value (c : ascii) : N :=
  match index 0 (String c EmptyString) "0123456789abcdefghijklmnopqrstuvwxyz" with
  | Some k => N.of_nat k
  | None => 0
  end.

Definition base36_value (s : string) : N :=
  fold_left (fun acc c => acc * 36 + digit_value c)%N (Str.to_list s) 0%N.

(** * Properties *)

(** ** Sanity checks of the embedding *)

Example toString36_digits :
  Str.toString36 0 = "0" /\ Str.toString36 35 = "z" /\ Str.toString36 36 = "10"
  /\ Str.toString36 1700000000000 = "loyw3v28".
Proof. repeat split; vm_compute; reflexivity. Qed.

Example generateResetToken_shape :
  generateResetToken "k3j9x0a1z" 1700000000000 = "reset_k3j9x0a1zloyw3v28".
Proof. vm_compute. reflexivity. Qed.

Example toLowerCase_ascii :
  Str.toLowerCase "User@Example.COM" = "user@example.com".
Proof. reflexivity. Qed.

Example findIndex_seed :
  findIndex (same_email "USER@example.com") DEMO_USERS = 3%Z
  /\ findIndex (same_email "nobody@example.com") DEMO_USERS = (-1)%Z.
Proof. split; reflexivity. Qed.

Example loginWithGoogle_default :
  loginWithGoogle None fresh
  = Success (mkView "user@example.com" "Attendee" "normal" "Emily Davis").
Proof. reflexivity. Qed.

Example validatePassword_weak :
  Validation.valid (Validation.validatePassword "password" true) = false
  /\ Validation.valid (Validation.validatePassword "password" false) = true
  /\ Validation.valid (Validation.validatePassword "   " false) = false.
Proof. repeat split; reflexivity. Qed.

(** ** [find] and [findIndex] *)

Section Search.
Context {A : Type} (p : A -> bool).
Local Abbreviation first_at := (first_at p).

Lemma first_at_head x l : p x = true -> first_at (x :: l) 0 x.
Proof.
  intros Hx. repeat split; [done|]. intros j y Hj. lia.
Qed.

Lemma first_at_tail x l i y :
  p x = false -> first_at l i y -> first_at (x :: l) (S i) y.
Proof.
  intros Hx (Hi & Hy & Hlt). repeat split; [done..|].
  intros [|j] z Hj Hz; simpl in Hz.
  - by inversion Hz; subst.
  - apply (Hlt j); [lia|done].
Qed.

Lemma first_at_cons_inv x l i y :
  first_at (x :: l) i y ->
  (i = 0%nat /\ y = x /\ p x = true) \/
  (exists i', i = S i' /\ p x = false /\ first_at l i' y).
Proof.
  intros (Hi & Hy & Hlt). destruct i as [|i'].
  - left. simpl in Hi. inversion Hi; subst. done.
  - right. exists i'. split; [done|]. split.
    + apply (Hlt 0%nat); [lia|done].
    + repeat split; [done..|]. intros j z Hj Hz.
      apply (Hlt (S j)); [lia|done].
Qed.

Lemma find_first_at l x : find p l = Some x <-> exists i, first_at l i x.
Proof.
  induction l as [|a l IH]; simpl.
  - split; [done|]. intros (i & Hi & _). by destruct i.
  - destruct (p a) eqn:Ha.
    + split.
      * intros [= <-]. exists 0%nat. by apply first_at_head.
      * intros (i & Hi). apply first_at_cons_inv in Hi as [(_ & -> & _)|(i' & _ & Hf & _)];
          [done|congruence].
    + rewrite IH. split.
      * intros (i & Hi). exists (S i). by apply first_at_tail.
      * intros (i & Hi). apply first_at_cons_inv in Hi as [(_ & _ & Ht)|(i' & _ & _ & Hi')];
          [congruence|by exists i'].
Qed.

Lemma find_none_iff l : find p l = None <-> forall x, x ∈ l -> p x = false.
Proof.
  induction l as [|a l IH]; simpl.
  - split; [|done]. intros _ x Hx. by apply elem_of_nil in Hx.
  - destruct (p a) eqn:Ha.
    + split; [done|]. intros H. specialize (H a (list_elem_of_here _ _)). congruence.
    + rewrite IH. split.
      * intros H x Hx. apply elem_of_cons in Hx as [->|Hx]; [done|by apply H].
      * intros H x Hx. apply H. by apply list_elem_of_further.
Qed.

Lemma findIndex_first_at l i x : first_at l i x -> findIndex p l = Z.of_nat i.
Proof.
  revert i. induction l as [|a l IH]; intros i Hi.
  - destruct Hi as (Hi & _). by destruct i.
  - apply first_at_cons_inv in Hi as [(-> & -> & Ht)|(i' & -> & Hf & Hi')]; simpl.
    + by rewrite Ht.
    + rewrite Hf, (IH _ Hi').
      destruct (Z.eqb_spec (Z.of_nat i') (-1)); lia.
Qed.

Lemma findIndex_none l : find p l = None <-> findIndex p l = (-1)%Z.
Proof.
  induction l as [|a l IH]; simpl; [done|].
  destruct (p a) eqn:Ha; [done|].
  rewrite IH. destruct (Z.eqb_spec (findIndex p l) (-1)); [done|].
  split; [done|]. intros H.
  assert (-1 <= findIndex p l)%Z; [|lia].
  clear. induction l as [|b l IHl]; simpl; [lia|].
  destruct (p b); [lia|]. destruct (Z.eqb_spec (findIndex p l) (-1)); lia.
Qed.
End Search.

(** ** Email lookup *)

Lemma same_email_true e u : same_email e u = true <-> matches e u.
Proof. apply String.eqb_eq. Qed.

Lemma same_email_false e u : same_email e u = false <-> ~ matches e u.
Proof. apply String.eqb_neq. Qed.

Lemma first_match_first_at e users i u :
  first_match e users i u <-> first_at (same_email e) users i u.
Proof.
  unfold first_match, first_at. rewrite same_email_true.
  split; intros (Hi & Hm & Hlt); repeat split; try done;
    intros j u' Hj Hu'; apply same_email_false || apply <- same_email_false; eauto.
Qed.

Lemma find_first_match e users u :
  find (same_email e) users = Some u <-> exists i, first_match e users i u.
Proof.
  rewrite find_first_at. by setoid_rewrite first_match_first_at.
Qed.

Lemma find_no_match e users :
  find (same_email e) users = None <-> forall u, u ∈ users -> ~ matches e u.
Proof.
  rewrite find_none_iff. by setoid_rewrite same_email_false.
Qed.

Lemma findIndex_first_match e users i u :
  first_match e users i u -> findIndex (same_email e) users = Z.of_nat i.
Proof. rewrite first_match_first_at. apply findIndex_first_at. Qed.

Lemma unique_first_match e users i u :
  unique_emails users -> users !! i = Some u -> matches e u ->
  first_match e users i u.
Proof.
  intros Huniq Hi Hm. repeat split; [done..|].
  intros j u' Hj Hu' Hm'.
  assert (j = i); [|lia].
  apply (proj1 (NoDup_alt _) Huniq j i (Str.toLowerCase (email u')));
    rewrite list_lookup_fmap.
  - by rewrite Hu'.
  - rewrite Hi. simpl. unfold matches in *. congruence.
Qed.

(** Matching is a matter of the lowered email only. *)
Lemma first_match_same_lower e e' users i u :
  Str.toLowerCase e = Str.toLowerCase e' ->
  first_match e users i u -> first_match e' users i u.
Proof.
  unfold first_match, matches. intros ->. done.
Qed.

Lemma view_object_keys v : (view_object v).*1 = ["email"; "role"; "type"; "name"].
Proof. reflexivity. Qed.

Lemma sanitize_set_password q u : sanitize (set_password q u) = sanitize u.
Proof. reflexivity. Qed.

(** ** Login *)

(** C1. [validateLogin] fails with [AccountNotFound] when no stored
    user's email equals the given one up to letter case; with
    [InvalidCredentials] when the (first) matching user's stored password
    differs from the given string; and otherwise succeeds with the view
    [{email, role, type, name}] of that user, an object with no
    [password] key. It only reads the state. *)
Theorem validateLogin_outcomes (e pw : string) (st : State) :
  ((forall u, u ∈ getUsers st -> ~ matches e u) ->
     validateLogin e pw st = Failure AccountNotFound)
  /\ (forall i u, first_match e (getUsers st) i u -> password u <> pw ->
        validateLogin e pw st = Failure InvalidCredentials)
  /\ (forall i u, first_match e (getUsers st) i u -> password u = pw ->
        validateLogin e pw st
          = Success (mkView (email u) (role u) (type u) (name u))
        /\ forall v, validateLogin e pw st = Success v ->
             "password" ∉ (view_object v).*1)
  /\ exec (OpValidateLogin e pw) st = st.
Proof.
  unfold validateLogin. split; [|split; [|split; [|done]]].
  - intros Hno. apply find_no_match in Hno. by rewrite Hno.
  - intros i u Hfm Hpw.
    assert (find (same_email e) (getUsers st) = Some u) as ->
      by (apply find_first_match; eauto).
    by apply String.eqb_neq in Hpw as ->.
  - intros i u Hfm Hpw.
    assert (find (same_email e) (getUsers st) = Some u) as ->
      by (apply find_first_match; eauto).
    apply String.eqb_eq in Hpw as ->. split; [done|].
    intros v _. rewrite view_object_keys.
    rewrite !elem_of_cons, elem_of_nil. intros [?|[?|[?|[?|[]]]]]; discriminate.
Qed.

Lemma validateLogin_outcomes_witness :
  validateLogin "USER@Example.com" "User@123" fresh
  = Success (mkView "user@example.com" "Attendee" "normal" "Emily Davis").
Proof.
  pose proof (validateLogin_outcomes "USER@Example.com" "User@123" fresh)
    as (_ & _ & Hok & _).
  apply (Hok 3%nat (mkUser "user@example.com" "User@123" "Attendee" "normal" "Emily Davis")).
  - repeat split; [reflexivity..|].
    intros j u' Hj Hu'.
    destruct j as [|[|[|j]]]; [| | |lia];
      injection Hu' as <-; vm_compute; discriminate.
  - reflexivity.
Defined.

(** ** Suffixes *)

Lemma length_append (p s : string) :
  String.length (p ++ s) = (String.length p + String.length s)%nat.
Proof. induction p as [|c p IH]; simpl; [done|by rewrite IH]. Qed.

Lemma substring_all (s : string) : substring 0 (String.length s) s = s.
Proof. induction s as [|c s IH]; simpl; [done|by rewrite IH]. Qed.

Lemma substring_after (p s : string) :
  substring (String.length p) (String.length s) (p ++ s) = s.
Proof. induction p as [|c p IH]; simpl; [apply substring_all|done]. Qed.

Lemma substring_split (n : nat) (s : string) :
  (n <= String.length s)%nat ->
  s = substring 0 n s ++ substring n (String.length s - n) s.
Proof.
  revert n. induction s as [|c s IH]; intros [|n] Hn; simpl in *; try lia.
  - done.
  - by rewrite substring_all.
  - change (String c s = String c (substring 0 n s ++ substring n (String.length s - n) s)).
    f_equal. apply IH. lia.
Qed.

Lemma endsWith_spec (s suf : string) :
  Str.endsWith s suf = true <-> exists pre, s = pre ++ suf.
Proof.
  unfold Str.endsWith. rewrite andb_true_iff, Nat.leb_le, String.eqb_eq. split.
  - intros [Hle Hsub].
    exists (substring 0 (String.length s - String.length suf) s).
    pose proof (substring_split (String.length s - String.length suf) s) as Hs.
    replace (String.length s - (String.length s - String.length suf))%nat
      with (String.length suf) in Hs by lia.
    rewrite Hsub in Hs. apply Hs. lia.
  - intros [pre ->]. rewrite length_append. split; [lia|].
    replace (String.length pre + String.length suf - String.length suf)%nat
      with (String.length pre) by lia.
    apply substring_after.
Qed.

Lemma append_inj_r (p s s' : string) : p ++ s = p ++ s' -> s = s'.
Proof. induction p as [|c p IH]; simpl; [done|]. intros [= H]. by apply IH. Qed.

(** ** Single sign-on *)

Lemma head_filter {A : Type} (p : A -> bool) (l : list A) :
  head (List.filter p l) = find p l.
Proof.
  induction l as [|a l IH]; simpl; [done|]. by destruct (p a).
Qed.

Lemma enterprise_test d u :
  (String.eqb (type u) "enterprise" && Str.endsWith (email u) ("@" ++ d)) = true
  <-> enterprise_at d u.
Proof.
  unfold enterprise_at. by rewrite andb_true_iff, String.eqb_eq, endsWith_spec.
Qed.

Lemma first_enterprise_first_at d users i u :
  first_enterprise d users i u <->
  first_at (fun u => String.eqb (type u) "enterprise"
                     && Str.endsWith (email u) ("@" ++ d)) users i u.
Proof.
  unfold first_enterprise, first_at. rewrite enterprise_test.
  split; intros (Hi & Hm & Hlt); (split; [exact Hi|split; [exact Hm|]]);
    intros j u' Hj Hu'.
  - apply not_true_is_false. rewrite enterprise_test. eauto.
  - rewrite <- enterprise_test. rewrite (Hlt j u' Hj Hu'). done.
Qed.

(** C6. [loginWithSSO(d)] resolves to the failure [NoEnterpriseMatch]
    exactly when no stored user has type [enterprise] and an email
    ending in ["@"] followed by [d]; otherwise to the sanitized view of the
    first such user in store order. On the seed list, in memory or
    persisted, ["intuvia.com"] gives the Super Admin record and
    ["nomatch.com"] fails. *)
Theorem loginWithSSO_outcomes (d : string) (st : State) :
  (loginWithSSO d st = Failure NoEnterpriseMatch
     <-> forall u, u ∈ getUsers st -> ~ enterprise_at d u)
  /\ (forall i u, first_enterprise d (getUsers st) i u ->
        loginWithSSO d st = Success (sanitize u))
  /\ (forall s0, s0 = fresh \/ s0 = pageLoad fresh ->
        loginWithSSO "intuvia.com" s0
          = Success (mkView "superadmin@intuvia.com" "Super Admin"
                            "enterprise" "John Smith")
        /\ loginWithSSO "nomatch.com" s0 = Failure NoEnterpriseMatch).
Proof.
  split; [|split].
  - unfold loginWithSSO.
    pose proof (head_filter (fun u => String.eqb (type u) "enterprise"
                  && Str.endsWith (email u) ("@" ++ d)) (getUsers st)) as Hh.
    destruct (List.filter _ (getUsers st)) as [|x xs]; simpl in Hh.
    + split; [intros _|done]. symmetry in Hh.
      intros u Hu Hent. apply enterprise_test in Hent.
      rewrite (proj1 (find_none_iff _ _) Hh u Hu) in Hent. done.
    + split; [done|]. intros Hno. symmetry in Hh.
      apply find_first_at in Hh as (i & Hi & Hx & _).
      exfalso. apply (Hno x).
      * apply list_elem_of_lookup. eauto.
      * by apply enterprise_test.
  - intros i u Hfe. unfold loginWithSSO.
    apply first_enterprise_first_at in Hfe.
    assert (find (fun u => String.eqb (type u) "enterprise"
                  && Str.endsWith (email u) ("@" ++ d)) (getUsers st) = Some u) as Hf
      by (apply find_first_at; eauto).
    rewrite <- head_filter in Hf.
    by destruct (List.filter _ (getUsers st)) as [|x xs]; simpl in Hf; simplify_eq.
  - intros s0 [->| ->]; split; reflexivity.
Qed.

Lemma loginWithSSO_outcomes_witness :
  loginWithSSO "example.com" fresh = Failure NoEnterpriseMatch.
Proof.
  apply (proj1 (loginWithSSO_outcomes "example.com" fresh)).
  intros u Hu Hent. apply enterprise_test in Hent. revert Hent.
  change (getUsers fresh) with DEMO_USERS in Hu. unfold DEMO_USERS in Hu.
  repeat (apply elem_of_cons in Hu as [->|Hu]); try (vm_compute; discriminate).
  by apply elem_of_nil in Hu.
Defined.

(** ** Password strength *)

Lemma test_class_contains (cls : ascii -> bool) (P : ascii -> Prop) (s : string) :
  (forall c, cls c = true <-> P c) ->
  Str.test_class cls s = true <-> contains P s.
Proof.
  intros Hcls. unfold Str.test_class, contains. rewrite existsb_exists.
  split; intros (c & Hc & Hp); exists c; split;
    try (by apply list_elem_of_In); by apply Hcls.
Qed.

Lemma in_range_between (lo hi : ascii) (c : ascii) :
  Validation.in_range (nat_of_ascii lo) (nat_of_ascii hi) c = true <-> between lo hi c.
Proof.
  unfold Validation.in_range, between.
  rewrite andb_true_iff, !Nat.leb_le. done.
Qed.

Lemma isSpecial_spec (c : ascii) :
  Validation.isSpecial c = true <-> c ∈ Validation.SPECIALS.
Proof.
  unfold Validation.isSpecial. rewrite existsb_exists. split.
  - intros (x & Hx & Heq). apply Ascii.eqb_eq in Heq as ->. by apply list_elem_of_In.
  - intros Hc. exists c. split; [by apply list_elem_of_In|apply Ascii.eqb_refl].
Qed.

(** C7. [checkPasswordStrength(s)] reports, in [requirements], which of
    the five rules [s] meets (length at least 8; an uppercase letter; a
    lowercase letter; a digit; a symbol of the fixed set), in [score] how
    many of them, the label [weak] for a score of at most 2, [medium] for
    3 or 4 and [strong] for 5, and [allMet] exactly for 5. The empty string
    scores 0 and is weak; ["Abcdef1!"] scores 5 and is strong. *)
Theorem checkPasswordStrength_spec (s : string) :
  let r := Validation.checkPasswordStrength s in
  let q := Validation.requirements r in
  (Validation.minLength q = true <-> long_enough s)
  /\ (Validation.hasUppercase q = true <-> has_uppercase s)
  /\ (Validation.hasLowercase q = true <-> has_lowercase s)
  /\ (Validation.hasNumber q = true <-> has_digit s)
  /\ (Validation.hasSpecial q = true <-> has_symbol s)
  /\ Validation.score r
       = (Nat.b2n (Validation.minLength q) + Nat.b2n (Validation.hasUppercase q)
          + Nat.b2n (Validation.hasLowercase q) + Nat.b2n (Validation.hasNumber q)
          + Nat.b2n (Validation.hasSpecial q))%nat
  /\ (Validation.strength r = "weak" <-> (Validation.score r <= 2)%nat)
  /\ (Validation.strength r = "medium"
        <-> Validation.score r = 3%nat \/ Validation.score r = 4%nat)
  /\ (Validation.strength r = "strong" <-> Validation.score r = 5%nat)
  /\ (Validation.allMet r = true <-> Validation.score r = 5%nat)
  /\ (Validation.score (Validation.checkPasswordStrength EmptyString) = 0%nat
      /\ Validation.strength (Validation.checkPasswordStrength EmptyString) = "weak")
  /\ (Validation.score (Validation.checkPasswordStrength "Abcdef1!") = 5%nat
      /\ Validation.strength (Validation.checkPasswordStrength "Abcdef1!") = "strong").
Proof.
  intros r q.
  split; [apply Nat.leb_le|].
  split; [apply test_class_contains, (in_range_between "A" "Z")|].
  split; [apply test_class_contains, (in_range_between "a" "z")|].
  split; [apply test_class_contains, (in_range_between "0" "9")|].
  split; [apply test_class_contains, isSpecial_spec|].
  assert (Hlabels :
    forall b1 b2 b3 b4 b5,
      let n := length (List.filter id [b1; b2; b3; b4; b5]) in
      n = (Nat.b2n b1 + Nat.b2n b2 + Nat.b2n b3 + Nat.b2n b4 + Nat.b2n b5)%nat
      /\ ((if (n <=? 2)%nat then "weak" else if (n <=? 4)%nat then "medium" else "strong")
            = "weak" <-> (n <= 2)%nat)
      /\ ((if (n <=? 2)%nat then "weak" else if (n <=? 4)%nat then "medium" else "strong")
            = "medium" <-> n = 3%nat \/ n = 4%nat)
      /\ ((if (n <=? 2)%nat then "weak" else if (n <=? 4)%nat then "medium" else "strong")
            = "strong" <-> n = 5%nat)
      /\ ((n =? 5)%nat = true <-> n = 5%nat)).
  { intros [] [] [] [] []; cbv; repeat split; intros; try discriminate; try lia;
      try (destruct_or?; discriminate). }
  subst r q. unfold Validation.checkPasswordStrength, Validation.values.
  cbn [Validation.requirements Validation.score Validation.strength
       Validation.allMet Validation.minLength Validation.hasUppercase
       Validation.hasLowercase Validation.hasNumber Validation.hasSpecial].
  generalize (Validation.MIN_LENGTH <=? String.length s)%nat
             (Str.test_class Validation.isUpper s)
             (Str.test_class Validation.isLower s)
             (Str.test_class Validation.isDigit s)
             (Str.test_class Validation.isSpecial s).
  intros b1 b2 b3 b4 b5.
  destruct (Hlabels b1 b2 b3 b4 b5) as (H1 & H2 & H3 & H4 & H5).
  repeat (split; [assumption|]).
  split; split; reflexivity.
Qed.

(** ** Sessions *)

Lemma getSession_cases (now : Z) (st : State) :
  getSession now st = (None, st) /\ ls_session (storage st) = None
  \/ (exists s, ls_session (storage st) = Some s /\ (expiresAt s < now)%Z
        /\ getSession now st = (None, logout st))
  \/ (exists s, ls_session (storage st) = Some s /\ (now <= expiresAt s)%Z
        /\ getSession now st = (Some s, st)).
Proof.
  unfold getSession. destruct (ls_session (storage st)) as [s|]; [|by left].
  right. destruct (Z.ltb_spec (expiresAt s) now); [left|right]; by exists s.
Qed.

Lemma resetPassword_session (t q : string) (now : Z) (st : State) :
  ls_session (storage (resetPassword t q now st).2) = ls_session (storage st).
Proof.
  unfold resetPassword, validateResetToken.
  destruct (ls_reset (storage st)) as [rd|]; [|done].
  destruct (negb _); [done|]. destruct (_ <? _)%Z; [done|].
  destruct (_ =? _)%Z; [done|].
  unfold assign_password. by destruct (ls_users (storage st)).
Qed.

(** C4. A session read back while it has not expired carries the four
    fields of the user it was created for and expires 24 hours after the
    clock reading of its creation. Reading a stored session after its
    expiry deletes the session slot, and nothing else, and yields no
    session. Expiry is enforced by this read alone: the only operations
    that empty a filled session slot are an explicit [logout] and a
    [getSession] (also inside [isLoggedIn], [getUserRole] and
    [getUserType]) made after the expiry. *)
Theorem session_lifecycle :
  (forall (u : UserView) (t_login t_now now : Z) (st : State),
      (now <= t_now + 86400000)%Z ->
      exists s,
        getSession now (createSession u t_login t_now st)
          = (Some s, createSession u t_login t_now st)
        /\ v_email (s_user s) = v_email u /\ v_role (s_user s) = v_role u
        /\ v_type (s_user s) = v_type u /\ v_name (s_user s) = v_name u
        /\ loginTime s = t_login /\ expiresAt s = (t_now + 86400000)%Z)
  /\ (forall (st : State) (s : Session) (now : Z),
        ls_session (storage st) = Some s -> (expiresAt s < now)%Z ->
        (getSession now st).1 = None
        /\ ls_session (storage (getSession now st).2) = None
        /\ ls_users (storage (getSession now st).2) = ls_users (storage st)
        /\ ls_reset (storage (getSession now st).2) = ls_reset (storage st)
        /\ mem_demo (getSession now st).2 = mem_demo st)
  /\ (forall (o : Op) (st : State) (s : Session),
        ls_session (storage st) = Some s ->
        ls_session (storage (exec o st)) = None ->
        o = OpLogout
        \/ exists now, (expiresAt s < now)%Z
             /\ (o = OpGetSession now \/ o = OpIsLoggedIn now
                 \/ o = OpGetUserRole now \/ o = OpGetUserType now)).
Proof.
  split; [|split].
  - intros u t_login t_now now st Hnow.
    exists (mkSession u t_login (t_now + DAY_MS)).
    unfold getSession, createSession. simpl.
    destruct (Z.ltb_spec (t_now + DAY_MS) now) as [Hlt|_].
    + unfold DAY_MS in Hlt. lia.
    + done.
  - intros st s now Hs Hexp. unfold getSession. rewrite Hs.
    destruct (Z.ltb_spec (expiresAt s) now); [done|lia].
  - intros o st s Hs Hnone.
    assert (Hread : forall now, ls_session (storage (getSession now st).2) = None ->
                                (expiresAt s < now)%Z).
    { intros now. destruct (getSession_cases now st)
        as [[_ Hn]|[(s' & Hs' & Hlt & ->)|(s' & Hs' & _ & ->)]]; simpl; try congruence. }
    destruct o; simpl in Hnone; try congruence.
    + unfold pageLoad, initAuth in Hnone. simpl in Hnone.
      destruct (ls_users (storage st)); simpl in Hnone; congruence.
    + right. exists now. eauto.
    + right. exists now. split; [|eauto]. apply Hread.
      unfold isLoggedIn in Hnone. by destruct (getSession now st).
    + right. exists now. split; [|eauto]. apply Hread.
      unfold getUserRole in Hnone. by destruct (getSession now st).
    + right. exists now. split; [|eauto 6]. apply Hread.
      unfold getUserType in Hnone. by destruct (getSession now st).
    + by left.
    + unfold handleForgotPassword in Hnone.
      destruct (find _ _); simpl in Hnone; congruence.
    + unfold validateResetToken in Hnone.
      destruct (ls_reset (storage st)); simpl in Hnone; [|congruence].
      destruct (negb _); simpl in Hnone; [congruence|].
      destruct (_ <? _)%Z; simpl in Hnone; congruence.
    + rewrite resetPassword_session in Hnone. congruence.
Qed.

Lemma session_lifecycle_witness :
  (getSession 1700086400001
     (createSession (mkView "user@example.com" "Attendee" "normal" "Emily Davis")
                    1700000000000 1700000000000 fresh)).1 = None.
Proof.
  apply (proj1 (proj2 session_lifecycle)
           (createSession (mkView "user@example.com" "Attendee" "normal" "Emily Davis")
                          1700000000000 1700000000000 fresh)
           (mkSession (mkView "user@example.com" "Attendee" "normal" "Emily Davis")
                      1700000000000 1700086400000)).
  - reflexivity.
  - simpl. lia.
Defined.

(** ** Reset tokens *)

Lemma validateResetToken_valid (st : State) (rd : ResetData) (now : Z) :
  ls_reset (storage st) = Some rd -> (now <= r_expiresAt rd)%Z ->
  validateResetToken (r_token rd) now st = (Success (r_email rd), st).
Proof.
  intros Hrd Hnow. unfold validateResetToken. rewrite Hrd, String.eqb_refl. simpl.
  destruct (Z.ltb_spec (r_expiresAt rd) now); [lia|done].
Qed.

Lemma validateResetToken_mismatch (st : State) (rd : ResetData) (t : string) (now : Z) :
  ls_reset (storage st) = Some rd -> t <> r_token rd ->
  validateResetToken t now st = (Failure TokenMismatch, st).
Proof.
  intros Hrd Hne. unfold validateResetToken. rewrite Hrd.
  by apply String.eqb_neq in Hne as ->.
Qed.

Lemma validateResetToken_success_inv (t : string) (now : Z) (st st' : State) (e : string) :
  validateResetToken t now st = (Success e, st') ->
  st' = st /\ exists rd, ls_reset (storage st) = Some rd /\ t = r_token rd
                         /\ e = r_email rd /\ (now <= r_expiresAt rd)%Z.
Proof.
  unfold validateResetToken. destruct (ls_reset (storage st)) as [rd|]; [|done].
  destruct (String.eqb_spec t (r_token rd)) as [->|]; simpl; [|done].
  destruct (Z.ltb_spec (r_expiresAt rd) now); [done|].
  intros [= <- <-]. split; [done|]. by exists rd.
Qed.

(** C3. [validateResetToken(t)] fails with [NoActiveRequest] on an empty
    token slot; with [TokenMismatch], leaving the slot as it is, when [t]
    differs from the stored token; when [t] is the stored token and the
    expiry lies before the current time it deletes the slot, nothing else,
    and fails with [Expired]; otherwise it succeeds with the bound email
    and leaves the state as it is, so that verifying again before the
    expiry gives the same success. *)
Theorem validateResetToken_outcomes (t : string) (now : Z) (st : State) :
  (ls_reset (storage st) = None ->
     validateResetToken t now st = (Failure NoActiveRequest, st))
  /\ (forall rd, ls_reset (storage st) = Some rd -> t <> r_token rd ->
        validateResetToken t now st = (Failure TokenMismatch, st))
  /\ (forall rd, ls_reset (storage st) = Some rd -> t = r_token rd ->
        (r_expiresAt rd < now)%Z ->
        (validateResetToken t now st).1 = Failure Expired
        /\ ls_reset (storage (validateResetToken t now st).2) = None
        /\ ls_users (storage (validateResetToken t now st).2) = ls_users (storage st)
        /\ ls_session (storage (validateResetToken t now st).2) = ls_session (storage st)
        /\ mem_demo (validateResetToken t now st).2 = mem_demo st)
  /\ (forall rd, ls_reset (storage st) = Some rd -> t = r_token rd ->
        (now <= r_expiresAt rd)%Z ->
        validateResetToken t now st = (Success (r_email rd), st)
        /\ forall now', (now' <= r_expiresAt rd)%Z ->
             validateResetToken t now' (validateResetToken t now st).2
               = (Success (r_email rd), st)).
Proof.
  split; [|split; [|split]].
  - intros Hnone. unfold validateResetToken. by rewrite Hnone.
  - intros rd Hrd Hne. by apply validateResetToken_mismatch with rd.
  - intros rd Hrd -> Hexp. unfold validateResetToken.
    rewrite Hrd, String.eqb_refl. simpl.
    destruct (Z.ltb_spec (r_expiresAt rd) now); [done|lia].
  - intros rd Hrd -> Hnow.
    rewrite (validateResetToken_valid st rd now Hrd Hnow). split; [done|].
    intros now' Hnow'. simpl. by apply validateResetToken_valid.
Qed.

Lemma validateResetToken_outcomes_witness :
  validateResetToken "reset_abc" 1700000000001
    (on_storage (with_reset (Some (mkReset "user@example.com" "reset_abc" 1700000000000)))
                fresh)
  = (Failure Expired, fresh).
Proof.
  pose proof (validateResetToken_outcomes "reset_abc" 1700000000001
    (on_storage (with_reset (Some (mkReset "user@example.com" "reset_abc" 1700000000000)))
                fresh)) as (_ & _ & Hexp & _).
  destruct (Hexp (mkReset "user@example.com" "reset_abc" 1700000000000))
    as (Hres & _); [reflexivity|reflexivity|simpl; lia|].
  reflexivity.
Defined.

Lemma handleForgotPassword_success (rnd : string) (t_tok t_now : Z) (e : string)
    (st : State) (i : nat) (u : User) :
  first_match e (getUsers st) i u ->
  handleForgotPassword rnd t_tok t_now e st
  = (Success (mkForgot "Password reset link sent to your email."
                       ("reset-password.html?token=" ++ generateResetToken rnd t_tok)),
     on_storage (with_reset (Some (mkReset (email u) (generateResetToken rnd t_tok)
                                           (t_now + HALF_HOUR_MS)))) st).
Proof.
  intros Hfm. unfold handleForgotPassword.
  assert (find (same_email e) (getUsers st) = Some u) as ->
    by (apply find_first_match; eauto).
  done.
Qed.

Lemma handleForgotPassword_success_inv (rnd : string) (t_tok t_now : Z) (e : string)
    (st st' : State) (r : ForgotReply) :
  handleForgotPassword rnd t_tok t_now e st = (Success r, st') ->
  exists i u, first_match e (getUsers st) i u
    /\ resetUrl r = "reset-password.html?token=" ++ generateResetToken rnd t_tok
    /\ st' = on_storage (with_reset (Some (mkReset (email u) (generateResetToken rnd t_tok)
                                                   (t_now + HALF_HOUR_MS)))) st.
Proof.
  unfold handleForgotPassword.
  destruct (find (same_email e) (getUsers st)) as [u|] eqn:Hf; [|done].
  intros [= <- <-]. apply find_first_match in Hf as [i Hi]. by exists i, u.
Qed.

(** C5. The token slot holds one token. After two successful
    [handleForgotPassword] calls in a row that yield the tokens [t1] and
    then [t2], with [t1] different from [t2], the slot holds [t2] alone and
    [validateResetToken(t1)] fails with [TokenMismatch], whatever the
    time. *)
Theorem second_request_invalidates_first
    (rnd1 rnd2 e1 e2 t1 t2 : string) (a1 b1 a2 b2 now : Z)
    (st st1 st2 : State) (r1 r2 : ForgotReply) :
  handleForgotPassword rnd1 a1 b1 e1 st = (Success r1, st1) ->
  yields_token r1 t1 ->
  handleForgotPassword rnd2 a2 b2 e2 st1 = (Success r2, st2) ->
  yields_token r2 t2 ->
  t1 <> t2 ->
  (exists rd, ls_reset (storage st2) = Some rd /\ r_token rd = t2)
  /\ validateResetToken t1 now st2 = (Failure TokenMismatch, st2).
Proof.
  intros H1 Hy1 H2 Hy2 Hne.
  apply handleForgotPassword_success_inv in H1 as (i1 & u1 & _ & Hurl1 & _).
  apply handleForgotPassword_success_inv in H2 as (i2 & u2 & _ & Hurl2 & ->).
  unfold yields_token in *.
  rewrite Hurl1 in Hy1. apply append_inj_r in Hy1.
  rewrite Hurl2 in Hy2. apply append_inj_r in Hy2.
  split.
  - eexists. split; [reflexivity|]. done.
  - eapply validateResetToken_mismatch; [reflexivity|]. simpl. congruence.
Qed.

Lemma second_request_invalidates_first_witness :
  validateResetToken (generateResetToken "k3j9x0a1z" 1700000000000) 1700000060000
    (handleForgotPassword "p0q8w7e6r" 1700000050000 1700000050000 "admin@intuvia.com"
       (handleForgotPassword "k3j9x0a1z" 1700000000000 1700000000000
          "user@example.com" fresh).2).2
  = (Failure TokenMismatch,
     (handleForgotPassword "p0q8w7e6r" 1700000050000 1700000050000 "admin@intuvia.com"
       (handleForgotPassword "k3j9x0a1z" 1700000000000 1700000000000
          "user@example.com" fresh).2).2).
Proof.
  refine (proj2 (second_request_invalidates_first
    "k3j9x0a1z" "p0q8w7e6r" "user@example.com" "admin@intuvia.com"
    (generateResetToken "k3j9x0a1z" 1700000000000)
    (generateResetToken "p0q8w7e6r" 1700000050000)
    1700000000000 1700000000000 1700000050000 1700000050000 1700000060000
    fresh _ _ _ _ _ _ _ _ _)).
  - vm_compute. reflexivity.
  - reflexivity.
  - vm_compute. reflexivity.
  - reflexivity.
  - vm_compute. discriminate.
Defined.

(** ** Password reset *)

Lemma first_match_alter (e q : string) (users : list User) (i : nat) (u : User) :
  first_match e users i u ->
  first_match e (alter (set_password q) i users) i (set_password q u).
Proof.
  intros (Hi & Hm & Hlt). split; [|split].
  - by rewrite list_lookup_alter_eq, Hi.
  - exact Hm.
  - intros j u' Hj Hu'. rewrite list_lookup_alter_ne in Hu' by lia. eauto.
Qed.

Lemma getUsers_stored (st : State) (us : list User) :
  ls_users (storage st) = Some us -> getUsers st = us.
Proof. unfold getUsers. by intros ->. Qed.

Lemma resetPassword_success (q : string) (now : Z) (st : State) (rd : ResetData)
    (i : nat) (u : User) :
  ls_reset (storage st) = Some rd -> (now <= r_expiresAt rd)%Z ->
  first_match (r_email rd) (getUsers st) i u ->
  exists st',
    resetPassword (r_token rd) q now st
      = (Success "Password changed successfully. Redirecting to login...", st')
    /\ ls_users (storage st') = Some (alter (set_password q) i (getUsers st))
    /\ ls_reset (storage st') = None
    /\ ls_session (storage st') = ls_session (storage st).
Proof.
  intros Hrd Hnow Hfm. unfold resetPassword.
  rewrite (validateResetToken_valid st rd now Hrd Hnow).
  rewrite (findIndex_first_match _ _ _ _ Hfm).
  destruct (Z.eqb_spec (Z.of_nat i) (-1)); [lia|].
  rewrite Nat2Z.id. eexists. split; [reflexivity|].
  unfold assign_password. by destruct (ls_users (storage st)).
Qed.

Lemma resetPassword_success_inv (t q : string) (now : Z) (st st' : State) (msg : string) :
  resetPassword t q now st = (Success msg, st') ->
  exists rd i u, ls_reset (storage st) = Some rd /\ t = r_token rd
    /\ (now <= r_expiresAt rd)%Z /\ first_match (r_email rd) (getUsers st) i u.
Proof.
  unfold resetPassword.
  destruct (validateResetToken t now st) as [[bound|err] st1] eqn:Hv; [|done].
  apply validateResetToken_success_inv in Hv as (-> & rd & Hrd & -> & -> & Hnow).
  destruct (Z.eqb_spec (findIndex (same_email (r_email rd)) (getUsers st)) (-1))
    as [|Hidx]; [done|].
  intros _.
  destruct (find (same_email (r_email rd)) (getUsers st)) as [u|] eqn:Hf.
  - apply find_first_match in Hf as [i Hi]. by exists rd, i, u.
  - by apply findIndex_none in Hf.
Qed.

(** C8. A successful [resetPassword] persists a user list that differs
    from the one [getUsers] read before it in a single place: the record
    of the first user whose email matches the email bound to the token has
    the new password and its email, role, type and name as before; every
    other record, and the number of records, is as before. *)
Theorem resetPassword_frame (t q : string) (now : Z) (st st' : State) (msg : string) :
  resetPassword t q now st = (Success msg, st') ->
  exists rd i u,
    ls_reset (storage st) = Some rd
    /\ first_match (r_email rd) (getUsers st) i u
    /\ ls_users (storage st') = Some (getUsers st')
    /\ length (getUsers st') = length (getUsers st)
    /\ getUsers st' !! i = Some (mkUser (email u) q (role u) (type u) (name u))
    /\ forall j, j <> i -> getUsers st' !! j = getUsers st !! j.
Proof.
  intros Hres.
  destruct (resetPassword_success_inv _ _ _ _ _ _ Hres)
    as (rd & i & u & Hrd & -> & Hnow & Hfm).
  destruct (resetPassword_success q now st rd i u Hrd Hnow Hfm)
    as (st2 & Hres2 & Hus & _).
  rewrite Hres in Hres2. injection Hres2 as _ <-.
  exists rd, i, u. rewrite (getUsers_stored _ _ Hus).
  split; [done|]. split; [done|]. split; [done|].
  split; [apply length_alter|]. split.
  - rewrite list_lookup_alter_eq. destruct Hfm as (-> & _). done.
  - intros j Hj. by apply list_lookup_alter_ne.
Qed.

Lemma resetPassword_frame_witness :
  exists rd i u,
    ls_reset (storage (handleForgotPassword "k3j9x0a1z" 1700000000000 1700000000000
                         "user@example.com" (pageLoad fresh)).2) = Some rd
    /\ i = 3%nat /\ email u = "user@example.com".
Proof.
  destruct (resetPassword_frame
    (generateResetToken "k3j9x0a1z" 1700000000000) "NewPass1!" 1700000600000
    (handleForgotPassword "k3j9x0a1z" 1700000000000 1700000000000
       "user@example.com" (pageLoad fresh)).2
    (resetPassword (generateResetToken "k3j9x0a1z" 1700000000000) "NewPass1!"
       1700000600000
       (handleForgotPassword "k3j9x0a1z" 1700000000000 1700000000000
          "user@example.com" (pageLoad fresh)).2).2
    "Password changed successfully. Redirecting to login...")
    as (rd & i & u & Hrd & Hfm & _ & _ & Hi & _).
  - vm_compute. reflexivity.
  - exists rd, i, u. split; [exact Hrd|].
    vm_compute in Hrd. injection Hrd as <-.
    assert (i = 3%nat) as ->.
    { pose proof (findIndex_first_match _ _ _ _ Hfm) as Hidx.
      change (3%Z = Z.of_nat i) in Hidx. lia. }
    split; [reflexivity|]. destruct Hfm as (Hu & _).
    vm_compute in Hu. by injection Hu as <-.
Defined.

(** C10. [resetPassword] does not examine the new password. Whenever the
    token slot holds the given token, unexpired, bound to the email of a
    stored user, it succeeds for every string [q], and the persisted
    password of that user then is [q]. *)
Theorem resetPassword_no_validation (t q : string) (now : Z) (st : State)
    (rd : ResetData) (i : nat) (u : User) :
  ls_reset (storage st) = Some rd -> t = r_token rd ->
  (now <= r_expiresAt rd)%Z ->
  first_match (r_email rd) (getUsers st) i u ->
  exists msg st' u',
    resetPassword t q now st = (Success msg, st')
    /\ ls_users (storage st') = Some (getUsers st')
    /\ getUsers st' !! i = Some u'
    /\ email u' = email u /\ password u' = q.
Proof.
  intros Hrd -> Hnow Hfm.
  destruct (resetPassword_success q now st rd i u Hrd Hnow Hfm)
    as (st' & Hres & Hus & _).
  exists "Password changed successfully. Redirecting to login...", st', (set_password q u).
  rewrite (getUsers_stored _ _ Hus).
  split; [done|]. split; [done|]. split; [|done].
  rewrite list_lookup_alter_eq. destruct Hfm as (-> & _). done.
Qed.

Lemma resetPassword_no_validation_witness :
  Validation.valid (Validation.validatePassword EmptyString true) = false
  /\ Validation.score (Validation.checkPasswordStrength EmptyString) = 0%nat
  /\ exists msg st' u',
       resetPassword "reset_abc" EmptyString 1700000000000
         (on_storage (with_reset (Some (mkReset "user@example.com" "reset_abc"
                                                1700000000000)))
                     (pageLoad fresh))
       = (Success msg, st')
       /\ ls_users (storage st') = Some (getUsers st')
       /\ getUsers st' !! 3%nat = Some u'
       /\ email u' = "user@example.com" /\ password u' = EmptyString.
Proof.
  split; [reflexivity|]. split; [reflexivity|].
  apply (resetPassword_no_validation "reset_abc" EmptyString 1700000000000
    (on_storage (with_reset (Some (mkReset "user@example.com" "reset_abc"
                                           1700000000000)))
                (pageLoad fresh))
    (mkReset "user@example.com" "reset_abc" 1700000000000) 3%nat
    (mkUser "user@example.com" "User@123" "Attendee" "normal" "Emily Davis")).
  - reflexivity.
  - reflexivity.
  - simpl. lia.
  - split; [reflexivity|]. split; [reflexivity|].
    intros j u' Hj Hu'.
    destruct j as [|[|[|j]]]; [| | |lia];
      vm_compute in Hu'; injection Hu' as <-; vm_compute; discriminate.
Defined.

Lemma validateLogin_first_match (e pw : string) (st : State) (i : nat) (u : User) :
  first_match e (getUsers st) i u ->
  validateLogin e pw st
  = if negb (String.eqb (password u) pw) then Failure InvalidCredentials
    else Success (sanitize u).
Proof.
  intros Hfm. unfold validateLogin.
  assert (find (same_email e) (getUsers st) = Some u) as ->
    by (apply find_first_match; eauto).
  done.
Qed.

(** C2, as the code has it. For a stored user with email [e] (up to
    letter case) and password [p], and every new password [q] other than
    [p]: [handleForgotPassword(e)] yields a token [t]; [resetPassword(t, q)]
    made before the token's expiry, 30 minutes after the request,
    succeeds and deletes the token slot; afterwards [validateLogin(e, q)]
    succeeds and [validateLogin(e, p)] fails with [InvalidCredentials].
    Whenever [validateResetToken] fails, [resetPassword] returns that
    failure, and when the bound email matches no stored user it fails
    with [UserNotFound]. *)
Theorem reset_then_login :
  (forall (st : State) (e rnd q : string) (t_tok t_now now : Z) (i : nat) (u : User),
      first_match e (getUsers st) i u ->
      q <> password u ->
      (now <= t_now + 1800000)%Z ->
      exists r st1 t msg st2,
        handleForgotPassword rnd t_tok t_now e st = (Success r, st1)
        /\ yields_token r t
        /\ resetPassword t q now st1 = (Success msg, st2)
        /\ ls_reset (storage st2) = None
        /\ validateLogin e q st2 = Success (sanitize u)
        /\ validateLogin e (password u) st2 = Failure InvalidCredentials)
  /\ (forall (t q : string) (now : Z) (st st' : State) (err : string),
        validateResetToken t now st = (Failure err, st') ->
        resetPassword t q now st = (Failure err, st'))
  /\ (forall (t q bound : string) (now : Z) (st : State),
        validateResetToken t now st = (Success bound, st) ->
        (forall u, u ∈ getUsers st -> ~ matches bound u) ->
        resetPassword t q now st = (Failure UserNotFound, st)).
Proof.
  split; [|split].
  - intros st e rnd q t_tok t_now now i u Hfm Hq Hnow.
    set (t := generateResetToken rnd t_tok).
    set (rd := mkReset (email u) t (t_now + HALF_HOUR_MS)).
    set (st1 := on_storage (with_reset (Some rd)) st).
    assert (Hfm1 : first_match (r_email rd) (getUsers st1) i u).
    { apply (first_match_same_lower e); [|exact Hfm].
      destruct Hfm as (_ & Hm & _). symmetry. exact Hm. }
    destruct (resetPassword_success q now st1 rd i u) as (st2 & Hres & Hus & Hrs & _);
      [done|simpl; unfold HALF_HOUR_MS; lia|done|].
    exists (mkForgot "Password reset link sent to your email."
                     ("reset-password.html?token=" ++ t)), st1, t,
           "Password changed successfully. Redirecting to login...", st2.
    split; [by apply handleForgotPassword_success with i|].
    split; [done|]. split; [exact Hres|]. split; [exact Hrs|].
    assert (Hfm2 : first_match e (getUsers st2) i (set_password q u)).
    { rewrite (getUsers_stored _ _ Hus). by apply first_match_alter. }
    rewrite !(validateLogin_first_match _ _ _ _ _ Hfm2). simpl.
    rewrite String.eqb_refl. simpl. split; [done|].
    by apply String.eqb_neq in Hq as ->.
  - intros t q now st st' err Hv. unfold resetPassword. by rewrite Hv.
  - intros t q bound now st Hv Hno. unfold resetPassword. rewrite Hv.
    apply find_no_match, findIndex_none in Hno. by rewrite Hno.
Qed.

Lemma reset_then_login_witness :
  exists r st1 t msg st2,
    handleForgotPassword "k3j9x0a1z" 1700000000000 1700000000000
      "user@example.com" (pageLoad fresh) = (Success r, st1)
    /\ yields_token r t
    /\ resetPassword t "NewPass1!" 1700000600000 st1 = (Success msg, st2)
    /\ ls_reset (storage st2) = None
    /\ validateLogin "user@example.com" "NewPass1!" st2
       = Success (mkView "user@example.com" "Attendee" "normal" "Emily Davis")
    /\ validateLogin "user@example.com" "User@123" st2 = Failure InvalidCredentials.
Proof.
  apply (proj1 reset_then_login (pageLoad fresh) "user@example.com" "k3j9x0a1z"
           "NewPass1!" 1700000000000%Z 1700000000000%Z 1700000600000%Z 3%nat
           (mkUser "user@example.com" "User@123" "Attendee" "normal" "Emily Davis")).
  - split; [reflexivity|]. split; [reflexivity|].
    intros j u' Hj Hu'.
    destruct j as [|[|[|j]]]; [| | |lia];
      vm_compute in Hu'; injection Hu' as <-; vm_compute; discriminate.
  - discriminate.
  - lia.
Defined.

(** C2 as first stated fails when the new password is the old one: the
    reset succeeds and the old password still logs in. *)
Lemma reset_same_password_counterexample :
  let t := generateResetToken "k3j9x0a1z" 1700000000000 in
  let st1 := (handleForgotPassword "k3j9x0a1z" 1700000000000 1700000000000
                "user@example.com" (pageLoad fresh)).2 in
  let st2 := (resetPassword t "User@123" 1700000600000 st1).2 in
  validateLogin "user@example.com" "User@123" (pageLoad fresh)
    = Success (mkView "user@example.com" "Attendee" "normal" "Emily Davis")
  /\ (exists r, handleForgotPassword "k3j9x0a1z" 1700000000000 1700000000000
                  "user@example.com" (pageLoad fresh) = (Success r, st1)
                /\ yields_token r t)
  /\ (exists msg, resetPassword t "User@123" 1700000600000 st1 = (Success msg, st2))
  /\ validateLogin "user@example.com" "User@123" st2
       = Success (mkView "user@example.com" "Attendee" "normal" "Emily Davis")
  /\ validateLogin "user@example.com" "User@123" st2 <> Failure InvalidCredentials.
Proof.
  intros t st1 st2. split; [reflexivity|]. split; [|split; [|split]].
  - eexists. split; [vm_compute; reflexivity|reflexivity].
  - eexists. vm_compute. reflexivity.
  - vm_compute. reflexivity.
  - vm_compute. discriminate.
Qed.

(** ** The stored emails never change *)

Lemma email_alter_password (q : string) (i : nat) (users : list User) :
  email <$> alter (set_password q) i users = email <$> users.
Proof.
  revert i. induction users as [|u users IH]; intros [|i]; try done.
  cbn. f_equal. apply IH.
Qed.

Lemma seed_emails_fresh : seed_emails fresh.
Proof. split; [done|]. intros us Hus. discriminate. Qed.

Lemma seed_emails_getSession (now : Z) (st : State) :
  seed_emails st -> seed_emails (getSession now st).2.
Proof.
  intros Hst.
  destruct (getSession_cases now st)
    as [[-> _]|[(s & _ & _ & ->)|(s & _ & _ & ->)]]; done.
Qed.

Lemma seed_emails_exec (o : Op) (st : State) :
  seed_emails st -> seed_emails (exec o st).
Proof.
  intros Hst. pose proof Hst as [Hmem Hls].
  destruct o; simpl; try done.
  - unfold pageLoad, initAuth. simpl.
    destruct (ls_users (storage st)) as [us|] eqn:Hus; simpl.
    + split; [done|]. simpl. intros us'. rewrite Hus. intros [= <-]. by apply Hls.
    + split; [done|]. simpl. by intros us' [= <-].
  - by apply seed_emails_getSession.
  - unfold isLoggedIn. pose proof (seed_emails_getSession now st Hst).
    by destruct (getSession now st).
  - unfold getUserRole. pose proof (seed_emails_getSession now st Hst).
    by destruct (getSession now st).
  - unfold getUserType. pose proof (seed_emails_getSession now st Hst).
    by destruct (getSession now st).
  - unfold handleForgotPassword. by destruct (find _ _).
  - unfold validateResetToken. destruct (ls_reset (storage st)); [|done].
    destruct (negb _); [done|]. by destruct (_ <? _)%Z.
  - unfold resetPassword, validateResetToken.
    destruct (ls_reset (storage st)) as [rd|]; [|done].
    destruct (negb _); [done|]. destruct (_ <? _)%Z; [done|].
    destruct (_ =? _)%Z; [done|].
    unfold assign_password, getUsers. simpl.
    destruct (ls_users (storage st)) as [us|] eqn:Hus; simpl.
    + split; [done|]. simpl. intros us' [= <-].
      rewrite email_alter_password. by apply Hls.
    + split; simpl; [by rewrite email_alter_password|].
      intros us' [= <-]. by rewrite email_alter_password.
Qed.

Lemma seed_emails_unique (st : State) : seed_emails st -> unique_emails (getUsers st).
Proof.
  intros [Hmem Hls].
  assert (email <$> getUsers st = email <$> DEMO_USERS) as Hem.
  { unfold getUsers. destruct (ls_users (storage st)); [by apply Hls|done]. }
  unfold unique_emails. rewrite list_fmap_compose, Hem.
  apply (bool_decide_unpack _). vm_compute. exact I.
Qed.

Lemma reachable_seed_emails (st : State) : reachable st -> seed_emails st.
Proof.
  induction 1 as [|o st _ IH]; [apply seed_emails_fresh|by apply seed_emails_exec].
Qed.

Lemma reachable_unique_emails (st : State) :
  reachable st -> unique_emails (getUsers st).
Proof. intros H. by apply seed_emails_unique, reachable_seed_emails. Qed.

(** ** Google login *)

Lemma toLowerCase_empty (s : string) : Str.toLowerCase s = EmptyString -> s = EmptyString.
Proof. by destruct s. Qed.

(** C9. The email lookup of [loginWithGoogle] compares exactly. In a
    store whose emails are unique up to letter case (every store the
    pages can reach), a hint [h] that differs from a stored user's email
    in letter case only does not select that user, although the lookup of
    the other functions does: the call resolves to a success with the
    made-up user [{email: h, role: 'Attendee', type: 'normal', name:
    'Google User'}] and changes nothing in the state. *)
Theorem loginWithGoogle_hint_case_sensitive
    (st : State) (i : nat) (u : User) (h : string) :
  unique_emails (getUsers st) ->
  getUsers st !! i = Some u ->
  Str.toLowerCase h = Str.toLowerCase (email u) ->
  h <> email u ->
  loginWithGoogle (Some h) st
    = Success (mkView h "Attendee" "normal" "Google User")
  /\ loginWithGoogle (Some h) st <> Success (sanitize u)
  /\ exec (OpLoginWithGoogle (Some h)) st = st
  /\ find (same_email h) (getUsers st) = Some u.
Proof.
  intros Huniq Hi Hlow Hne.
  assert (Hres : loginWithGoogle (Some h) st
                 = Success (mkView h "Attendee" "normal" "Google User")).
  { unfold loginWithGoogle.
    assert (Str.truthy h = true) as ->.
    { destruct h; [|done]. exfalso. apply Hne. symmetry.
      apply toLowerCase_empty. by rewrite <- Hlow. }
    assert (find (fun u0 => String.eqb (email u0) h) (getUsers st) = None) as ->; [|done].
    apply find_none_iff. intros u' Hu'. apply String.eqb_neq. intros Heq.
    apply list_elem_of_lookup in Hu' as [j Hj].
    assert (j = i) as ->.
    { apply (proj1 (NoDup_alt _) Huniq j i (Str.toLowerCase (email u)));
        rewrite list_lookup_fmap.
      - rewrite Hj. simpl. by rewrite Heq, Hlow.
      - by rewrite Hi. }
    congruence. }
  split; [exact Hres|]. split; [|split; [done|]].
  - rewrite Hres. intros [= Heq]. done.
  - apply find_first_match. exists i. by apply unique_first_match.
Qed.

Lemma loginWithGoogle_hint_case_sensitive_witness :
  loginWithGoogle (Some "User@Example.com") (pageLoad fresh)
  = Success (mkView "User@Example.com" "Attendee" "normal" "Google User").
Proof.
  apply (loginWithGoogle_hint_case_sensitive (pageLoad fresh) 3
           (mkUser "user@example.com" "User@123" "Attendee" "normal" "Emily Davis")
           "User@Example.com").
  - apply (bool_decide_unpack _). vm_compute. exact I.
  - reflexivity.
  - reflexivity.
  - discriminate.
Defined.

(** * Further properties of the code *)

(** ** The credential store over the life of the pages *)

Lemma sanitize_alter_password (q : string) (i : nat) (users : list User) :
  sanitize <$> alter (set_password q) i users = sanitize <$> users.
Proof.
  revert i. induction users as [|u users IH]; intros [|i]; try done.
  cbn. f_equal. apply IH.
Qed.

Lemma seeded_fresh : seeded fresh.
Proof. split; [done|]. split; [|done]. intros us Hus. discriminate. Qed.

Lemma seeded_getSession (now : Z) (st : State) :
  seeded st -> seeded (getSession now st).2.
Proof.
  intros Hst.
  destruct (getSession_cases now st)
    as [[-> _]|[(s & _ & _ & ->)|(s & _ & _ & ->)]]; done.
Qed.

Lemma seeded_exec (o : Op) (st : State) : seeded st -> seeded (exec o st).
Proof.
  intros Hst. pose proof Hst as (Hmem & Hls & Hnone).
  destruct o; simpl; try done.
  - unfold pageLoad, initAuth. simpl.
    destruct (ls_users (storage st)) as [us|] eqn:Hus; simpl.
    + split; [done|]. simpl. split; [|by rewrite Hus].
      intros us'. rewrite Hus. intros [= <-]. by apply Hls.
    + split; [done|]. simpl. split; [by intros us' [= <-]|done].
  - by apply seeded_getSession.
  - unfold isLoggedIn. pose proof (seeded_getSession now st Hst).
    by destruct (getSession now st).
  - unfold getUserRole. pose proof (seeded_getSession now st Hst).
    by destruct (getSession now st).
  - unfold getUserType. pose proof (seeded_getSession now st Hst).
    by destruct (getSession now st).
  - unfold handleForgotPassword. by destruct (find _ _).
  - unfold validateResetToken. destruct (ls_reset (storage st)); [|done].
    destruct (negb _); [done|]. by destruct (_ <? _)%Z.
  - unfold resetPassword, validateResetToken.
    destruct (ls_reset (storage st)) as [rd|]; [|done].
    destruct (negb _); [done|]. destruct (_ <? _)%Z; [done|].
    destruct (_ =? _)%Z; [done|].
    unfold assign_password, getUsers. simpl.
    destruct (ls_users (storage st)) as [us|] eqn:Hus; simpl.
    + split; [done|]. simpl. split; [|done]. intros us' [= <-].
      rewrite sanitize_alter_password. by apply Hls.
    + split; simpl; [by rewrite sanitize_alter_password|]. split; [|done].
      intros us' [= <-]. by rewrite sanitize_alter_password.
Qed.

Lemma reachable_seeded (st : State) : reachable st -> seeded st.
Proof.
  induction 1 as [|o st _ IH]; [apply seeded_fresh|by apply seeded_exec].
Qed.

Lemma reachable_users_sanitize (st : State) :
  reachable st -> sanitize <$> getUsers st = sanitize <$> DEMO_USERS.
Proof.
  intros Hr. apply reachable_seeded in Hr as (Hmem & Hls & _).
  unfold getUsers. destruct (ls_users (storage st)); [by apply Hls|done].
Qed.

(** X1. In every state the pages can reach, the user list that
    [getUsers] returns is the seed list up to passwords: the same five
    users in the same order, each with its seed email, role, type and
    name. No operation adds, removes, reorders or renames a user. *)
Theorem reachable_store_shape (st : State) :
  reachable st ->
  sanitize <$> getUsers st = sanitize <$> DEMO_USERS
  /\ length (getUsers st) = 5%nat.
Proof.
  intros Hr. pose proof (reachable_users_sanitize st Hr) as Hs.
  split; [done|].
  apply (f_equal length) in Hs. by rewrite !length_fmap in Hs.
Qed.

Lemma reachable_store_shape_witness :
  sanitize <$> getUsers (exec (OpResetPassword "reset_abc0" "Zz9!zzzz" 5)
                          (exec (OpForgotPassword "abc" 0 0 "admin@intuvia.com") fresh))
  = sanitize <$> DEMO_USERS.
Proof.
  apply reachable_store_shape.
  apply reach_step, reach_step, reach_fresh.
Defined.

(** X2. In every reachable state, [resetPassword] is the only operation
    that can change the user list that [getUsers] returns; loading a
    page, logging in or out, sessions and reset requests leave it, and
    with it every [validateLogin] outcome, as it is. *)
Theorem only_reset_changes_users (o : Op) (st : State) :
  reachable st ->
  (forall t q now, o <> OpResetPassword t q now) ->
  getUsers (exec o st) = getUsers st
  /\ forall e pw, validateLogin e pw (exec o st) = validateLogin e pw st.
Proof.
  intros Hr Ho.
  assert (getUsers (exec o st) = getUsers st) as Hsame.
  { apply reachable_seeded in Hr as (_ & _ & Hnone).
    assert (Hread : forall now, getUsers (getSession now st).2 = getUsers st).
    { intros now. destruct (getSession_cases now st)
        as [[-> _]|[(s & _ & _ & ->)|(s & _ & _ & ->)]]; done. }
    destruct o; simpl; try done.
    - unfold pageLoad, initAuth, getUsers. simpl.
      destruct (ls_users (storage st)) as [us|] eqn:Hus; simpl.
      + by rewrite Hus.
      + by rewrite Hnone.
    - unfold isLoggedIn. specialize (Hread now). by destruct (getSession now st).
    - unfold getUserRole. specialize (Hread now). by destruct (getSession now st).
    - unfold getUserType. specialize (Hread now). by destruct (getSession now st).
    - unfold handleForgotPassword. by destruct (find _ _).
    - unfold validateResetToken. destruct (ls_reset (storage st)); [|done].
      destruct (negb _); [done|]. by destruct (_ <? _)%Z.
    - by destruct (Ho token newPassword now). }
  split; [done|]. intros e pw. unfold validateLogin. by rewrite Hsame.
Qed.

Lemma only_reset_changes_users_witness :
  getUsers (exec OpPageLoad
              (exec (OpResetPassword "reset_abc0" "Zz9!zzzz" 5)
                 (exec (OpForgotPassword "abc" 0 0 "admin@intuvia.com") fresh)))
  = getUsers (exec (OpResetPassword "reset_abc0" "Zz9!zzzz" 5)
                (exec (OpForgotPassword "abc" 0 0 "admin@intuvia.com") fresh)).
Proof.
  apply only_reset_changes_users.
  - apply reach_step, reach_step, reach_fresh.
  - discriminate.
Defined.

(** ** The reset token from request to use *)

(** Membership in a list given by its elements. *)
Ltac in_list :=
  repeat first [apply list_elem_of_here | apply list_elem_of_further].

(** X3. A reset token is used up by the reset it authorises: after a
    successful [resetPassword], verifying or using any token, the same
    one included, at any time fails with [NoActiveRequest] and changes
    nothing. *)
Theorem token_single_use (t q : string) (now : Z) (st st2 : State) (msg : string) :
  resetPassword t q now st = (Success msg, st2) ->
  forall t' q' now',
    validateResetToken t' now' st2 = (Failure NoActiveRequest, st2)
    /\ resetPassword t' q' now' st2 = (Failure NoActiveRequest, st2).
Proof.
  intros Hres t' q' now'.
  destruct (resetPassword_success_inv _ _ _ _ _ _ Hres)
    as (rd & i & u & Hrd & -> & Hnow & Hfm).
  destruct (resetPassword_success q now st rd i u Hrd Hnow Hfm)
    as (st' & Hres' & _ & Hnone & _).
  rewrite Hres in Hres'. injection Hres' as _ <-.
  assert (validateResetToken t' now' st2 = (Failure NoActiveRequest, st2)) as Hv
    by (unfold validateResetToken; by rewrite Hnone).
  split; [done|]. unfold resetPassword. by rewrite Hv.
Qed.

Lemma token_single_use_witness :
  resetPassword "reset_abc" "Other9!x" 1700000000001
    (resetPassword "reset_abc" "NewPass1!" 1700000000000
       (on_storage (with_reset (Some (mkReset "user@example.com" "reset_abc"
                                              1700000000000)))
                   (pageLoad fresh))).2
  = (Failure NoActiveRequest,
     (resetPassword "reset_abc" "NewPass1!" 1700000000000
        (on_storage (with_reset (Some (mkReset "user@example.com" "reset_abc"
                                               1700000000000)))
                    (pageLoad fresh))).2).
Proof.
  refine (proj2 (token_single_use "reset_abc" "NewPass1!" 1700000000000
    (on_storage (with_reset (Some (mkReset "user@example.com" "reset_abc"
                                           1700000000000)))
                (pageLoad fresh)) _ _ _ "reset_abc" "Other9!x" 1700000000001%Z)).
  vm_compute. reflexivity.
Defined.

(** X4. A [resetPassword] that fails changes no password: the user
    list, in storage and in memory, and the session slot are as before,
    and the state as a whole is untouched unless the failure is [Expired],
    in which case the token slot alone has been emptied. The failure is
    one of [NoActiveRequest], [TokenMismatch], [Expired] and
    [UserNotFound]. *)
Theorem failed_reset_changes_no_password
    (t q : string) (now : Z) (st st' : State) (err : string) :
  resetPassword t q now st = (Failure err, st') ->
  ls_users (storage st') = ls_users (storage st)
  /\ mem_demo st' = mem_demo st
  /\ ls_session (storage st') = ls_session (storage st)
  /\ (st' = st \/ (err = Expired /\ ls_reset (storage st') = None))
  /\ err ∈ [NoActiveRequest; TokenMismatch; Expired; UserNotFound].
Proof.
  unfold resetPassword, validateResetToken.
  destruct (ls_reset (storage st)) as [rd|] eqn:Hrd.
  - destruct (negb (String.eqb t (r_token rd))).
    + intros [= <- <-]. repeat split; [by left|in_list].
    + destruct (r_expiresAt rd <? now)%Z.
      * intros [= <- <-]. repeat split; [by right|in_list].
      * destruct (_ =? _)%Z; [|done].
        intros [= <- <-]. repeat split; [by left|in_list].
  - intros [= <- <-]. repeat split; [by left|in_list].
Qed.

Lemma failed_reset_changes_no_password_witness :
  ls_users (storage (resetPassword "reset_wrong" "NewPass1!" 1700000000000
     (on_storage (with_reset (Some (mkReset "user@example.com" "reset_abc"
                                            1700000000000)))
                 (pageLoad fresh))).2)
  = Some DEMO_USERS.
Proof.
  refine (proj1 (failed_reset_changes_no_password "reset_wrong" "NewPass1!"
    1700000000000
    (on_storage (with_reset (Some (mkReset "user@example.com" "reset_abc"
                                           1700000000000)))
                (pageLoad fresh)) _ TokenMismatch _)).
  vm_compute. reflexivity.
Defined.

(** X5. A reset request can be verified for exactly 30 minutes. After
    [handleForgotPassword] succeeds for an email that matches a stored
    user, [validateResetToken] on the issued token returns that user's
    email in its stored spelling up to and including the instant 30
    minutes after the request's clock reading, and fails with [Expired]
    from the next millisecond on. *)
Theorem request_then_verify
    (rnd e : string) (t_tok t_now now : Z) (st : State) (i : nat) (u : User) :
  first_match e (getUsers st) i u ->
  let st1 := (handleForgotPassword rnd t_tok t_now e st).2 in
  let t := generateResetToken rnd t_tok in
  ((now <= t_now + 1800000)%Z ->
     validateResetToken t now st1 = (Success (email u), st1))
  /\ ((t_now + 1800000 < now)%Z ->
        (validateResetToken t now st1).1 = Failure Expired
        /\ ls_reset (storage (validateResetToken t now st1).2) = None).
Proof.
  intros Hfm st1 t. subst st1 t.
  rewrite (handleForgotPassword_success rnd t_tok t_now e st i u Hfm). simpl.
  unfold validateResetToken. simpl. rewrite String.eqb_refl. simpl.
  unfold HALF_HOUR_MS.
  split; intros Hnow; destruct (Z.ltb_spec (t_now + 30 * 60 * 1000) now); try lia; done.
Qed.

Lemma request_then_verify_witness :
  validateResetToken (generateResetToken "k3j9x0a1z" 1700000000000) 1700001800000
    (handleForgotPassword "k3j9x0a1z" 1700000000000 1700000000000
       "USER@example.com" (pageLoad fresh)).2
  = (Success "user@example.com",
     (handleForgotPassword "k3j9x0a1z" 1700000000000 1700000000000
       "USER@example.com" (pageLoad fresh)).2).
Proof.
  apply (proj1 (request_then_verify "k3j9x0a1z" "USER@example.com"
           1700000000000 1700000000000 1700001800000 (pageLoad fresh) 3
           (mkUser "user@example.com" "User@123" "Attendee" "normal" "Emily Davis")
           ltac:(split; [reflexivity|]; split; [reflexivity|];
                 intros j u' Hj Hu';
                 destruct j as [|[|[|j]]]; [| | |lia];
                 vm_compute in Hu'; injection Hu' as <-; vm_compute; discriminate))).
  lia.
Defined.

(** X6. A reset request for an email that matches no stored user fails
    with [AccountNotFound] and leaves the state as it is, so a token
    issued earlier stays usable; no request, successful or not, touches
    the user list or the session. *)
Theorem forgot_password_frame (rnd e : string) (t_tok t_now : Z) (st : State) :
  ((forall u, u ∈ getUsers st -> ~ matches e u) <->
     (handleForgotPassword rnd t_tok t_now e st).1 = Failure AccountNotFound)
  /\ ((handleForgotPassword rnd t_tok t_now e st).1 = Failure AccountNotFound ->
        (handleForgotPassword rnd t_tok t_now e st).2 = st)
  /\ ls_users (storage (handleForgotPassword rnd t_tok t_now e st).2)
       = ls_users (storage st)
  /\ mem_demo (handleForgotPassword rnd t_tok t_now e st).2 = mem_demo st
  /\ ls_session (storage (handleForgotPassword rnd t_tok t_now e st).2)
       = ls_session (storage st).
Proof.
  rewrite <- find_no_match. unfold handleForgotPassword.
  destruct (find (same_email e) (getUsers st)); simpl; repeat split; done.
Qed.

(** X7. Changing a password does not end a session: [resetPassword],
    whether it succeeds or fails, leaves the session slot as it is, so
    [getSession] answers afterwards as it would have before. *)
Theorem reset_keeps_session (t q : string) (now now' : Z) (st : State) :
  ls_session (storage (resetPassword t q now st).2) = ls_session (storage st)
  /\ (getSession now' (resetPassword t q now st).2).1 = (getSession now' st).1.
Proof.
  pose proof (resetPassword_session t q now st) as Hs.
  split; [done|]. unfold getSession. rewrite Hs.
  destruct (ls_session (storage st)) as [s|]; [|done].
  by destruct (expiresAt s <? now')%Z.
Qed.

(** X8. A new password outlives the page: after a successful
    [resetPassword] the user list is in storage, so loading a page again
    returns the same list and the new password logs in. *)
Theorem reset_survives_reload
    (q : string) (now : Z) (st : State) (rd : ResetData) (e : string)
    (i : nat) (u : User) :
  ls_reset (storage st) = Some rd -> (now <= r_expiresAt rd)%Z ->
  first_match (r_email rd) (getUsers st) i u ->
  Str.toLowerCase e = Str.toLowerCase (email u) ->
  let st2 := (resetPassword (r_token rd) q now st).2 in
  getUsers (pageLoad st2) = getUsers st2
  /\ validateLogin e q (pageLoad st2) = Success (sanitize u).
Proof.
  intros Hrd Hnow Hfm He st2. subst st2.
  destruct (resetPassword_success q now st rd i u Hrd Hnow Hfm)
    as (st' & -> & Hus & _). simpl.
  assert (getUsers (pageLoad st') = getUsers st') as Hsame.
  { unfold pageLoad, initAuth, getUsers. simpl. rewrite Hus. simpl. by rewrite Hus. }
  split; [done|].
  assert (first_match e (getUsers (pageLoad st')) i (set_password q u)) as Hfm'.
  { rewrite Hsame, (getUsers_stored _ _ Hus).
    apply first_match_alter. apply (first_match_same_lower (r_email rd)); [|done].
    destruct Hfm as (_ & Hm & _). unfold matches in Hm. congruence. }
  rewrite (validateLogin_first_match _ _ _ _ _ Hfm'). simpl.
  by rewrite String.eqb_refl.
Qed.

Lemma reset_survives_reload_witness :
  validateLogin "User@Example.com" "NewPass1!"
    (pageLoad (resetPassword "reset_abc" "NewPass1!" 1700000000000
       (on_storage (with_reset (Some (mkReset "user@example.com" "reset_abc"
                                              1700000000000)))
                   fresh)).2)
  = Success (mkView "user@example.com" "Attendee" "normal" "Emily Davis").
Proof.
  apply (proj2 (reset_survives_reload "NewPass1!" 1700000000000
    (on_storage (with_reset (Some (mkReset "user@example.com" "reset_abc"
                                           1700000000000)))
                fresh)
    (mkReset "user@example.com" "reset_abc" 1700000000000) "User@Example.com" 3
    (mkUser "user@example.com" "User@123" "Attendee" "normal" "Emily Davis")
    eq_refl ltac:(simpl; lia)
    ltac:(split; [reflexivity|]; split; [reflexivity|];
          intros j u' Hj Hu';
          destruct j as [|[|[|j]]]; [| | |lia];
          vm_compute in Hu'; injection Hu' as <-; vm_compute; discriminate)
    eq_refl)).
Defined.

Lemma forgot_password_frame_witness :
  (handleForgotPassword "k3j9x0a1z" 1700000000000 1700000000000 "nobody@example.com"
     (on_storage (with_reset (Some (mkReset "user@example.com" "reset_abc"
                                            1700000000000)))
                 (pageLoad fresh))).2
  = on_storage (with_reset (Some (mkReset "user@example.com" "reset_abc"
                                          1700000000000)))
               (pageLoad fresh).
Proof.
  apply (proj1 (proj2 (forgot_password_frame "k3j9x0a1z" "nobody@example.com"
    1700000000000 1700000000000
    (on_storage (with_reset (Some (mkReset "user@example.com" "reset_abc"
                                           1700000000000)))
                (pageLoad fresh))))).
  reflexivity.
Defined.

(** ** Tokens issued at different times differ *)

Lemma to_list_append (s t : string) :
  Str.to_list (s ++ t) = (Str.to_list s ++ Str.to_list t)%list.
Proof.
  induction s as [|c s IH]; [done|].
  change (Str.to_list (String c (s ++ t)) = c :: (Str.to_list s ++ Str.to_list t)%list).
  simpl. by rewrite IH.
Qed.

Lemma dval_digit36 (d : N) : (d < 36)%N -> digit_value (Str.digit36 d) = d.
Proof.
  intros Hd.
  assert (forallb (fun k => N.eqb (digit_value (Str.digit36 (N.of_nat k))) (N.of_nat k))
                  (seq 0 36) = true) as Hall by (vm_compute; reflexivity).
  rewrite forallb_forall in Hall.
  specialize (Hall (N.to_nat d)). rewrite N2Nat.id in Hall.
  apply N.eqb_eq, Hall, in_seq. lia.
Qed.

Lemma toString36_go_app (fuel : nat) (n : N) (acc : string) :
  Str.toString36_go fuel n acc = Str.toString36_go fuel n EmptyString ++ acc.
Proof.
  revert n acc. induction fuel as [|f IH]; intros n acc; simpl; [done|].
  destruct (n / 36 =? 0)%N; [done|].
  rewrite (IH _ (String _ acc)), (IH _ (String _ EmptyString)).
  generalize (Str.toString36_go f (n / 36) EmptyString) as pre.
  induction pre as [|c pre IHpre]; [done|].
  change (String c (pre ++ String (Str.digit36 (n mod 36)) acc)
          = String c ((pre ++ String (Str.digit36 (n mod 36)) EmptyString) ++ acc)).
  by rewrite IHpre.
Qed.

Lemma value_toString36_go (fuel : nat) (n : N) :
  (n < 36 ^ N.of_nat (S fuel))%N ->
  base36_value (Str.toString36_go fuel n EmptyString) = n.
Proof.
  revert n. induction fuel as [|f IH]; intros n Hn.
  - simpl. unfold base36_value. simpl. change (36 ^ N.of_nat 1)%N with 36%N in Hn.
    rewrite dval_digit36 by (apply N.mod_lt; lia).
    rewrite N.mod_small; lia.
  - simpl. destruct (N.eqb_spec (n / 36) 0) as [Hz|Hz].
    + unfold base36_value. simpl. rewrite dval_digit36 by (apply N.mod_lt; lia).
      pose proof (N.div_mod n 36). lia.
    + rewrite toString36_go_app. unfold base36_value.
      rewrite to_list_append, fold_left_app. simpl.
      fold (base36_value (Str.toString36_go f (n / 36) EmptyString)).
      rewrite IH.
      * rewrite dval_digit36 by (apply N.mod_lt; lia).
        pose proof (N.div_mod n 36). lia.
      * apply N.Div0.div_lt_upper_bound.
        replace (N.of_nat (S (S f))) with (N.succ (N.of_nat (S f))) in Hn by lia.
        by rewrite N.pow_succ_r' in Hn.
Qed.

Lemma toString36_inj (a b : Z) :
  (0 <= a)%Z -> (0 <= b)%Z -> Str.toString36 a = Str.toString36 b -> a = b.
Proof.
  intros Ha Hb. unfold Str.toString36.
  destruct (Z.ltb_spec a 0); [lia|]. destruct (Z.ltb_spec b 0); [lia|].
  intros Heq. apply (f_equal base36_value) in Heq.
  assert (Hfuel : forall m : N, (m < 36 ^ N.of_nat (S (N.to_nat (N.size m))))%N).
  { intros m. apply N.lt_le_trans with (2 ^ N.size m)%N; [apply N.size_gt|].
    apply N.le_trans with (36 ^ N.size m)%N.
    - apply N.pow_le_mono_l. lia.
    - apply N.pow_le_mono_r; lia. }
  rewrite !value_toString36_go in Heq by apply Hfuel. lia.
Qed.

Lemma append_inj_same_length (a b c d : string) :
  String.length a = String.length c -> a ++ b = c ++ d -> a = c /\ b = d.
Proof.
  revert c. induction a as [|x a IH]; intros [|y c] Hlen Heq; try discriminate.
  - done.
  - change (String x (a ++ b) = String y (c ++ d)) in Heq.
    injection Heq as -> Heq. destruct (IH c) as [-> ->]; [by injection Hlen|done|done].
Qed.

(** X9. Reset tokens issued at different times differ: two tokens made
    by [generateResetToken] from random parts of the same length and
    non-negative clock readings are equal only if both the random parts
    and the clock readings are. *)
Theorem generateResetToken_inj (rnd1 rnd2 : string) (t1 t2 : Z) :
  (0 <= t1)%Z -> (0 <= t2)%Z ->
  String.length rnd1 = String.length rnd2 ->
  generateResetToken rnd1 t1 = generateResetToken rnd2 t2 ->
  rnd1 = rnd2 /\ t1 = t2.
Proof.
  intros H1 H2 Hlen Heq. unfold generateResetToken in Heq.
  apply append_inj_r in Heq.
  apply append_inj_same_length in Heq as [-> Hts]; [|done].
  split; [done|]. by apply toString36_inj.
Qed.

Lemma generateResetToken_inj_witness :
  generateResetToken "k3j9x0a1z" 1700000000000
  <> generateResetToken "k3j9x0a1z" 1700000000001.
Proof.
  intros Heq.
  destruct (generateResetToken_inj "k3j9x0a1z" "k3j9x0a1z"
              1700000000000 1700000000001) as [_ Ht];
    [lia|lia|reflexivity|exact Heq|discriminate Ht].
Defined.

(** ** Sessions as the pages see them *)

(** X10. [isLoggedIn] is true exactly when the session slot holds a
    session whose expiry is not before the clock reading, and then leaves
    the state alone; when it is false the slot is empty afterwards, and
    stays so whatever the clock shows next. [getUserRole] and
    [getUserType] return the stored role and type under the same
    condition and [null] otherwise. A session just created counts as
    logged in up to and including 24 hours after its creation. *)
Theorem isLoggedIn_spec (now : Z) (st : State) :
  ((isLoggedIn now st).1 = true <->
     exists s, ls_session (storage st) = Some s /\ (now <= expiresAt s)%Z)
  /\ ((isLoggedIn now st).1 = true -> (isLoggedIn now st).2 = st)
  /\ ((isLoggedIn now st).1 = false ->
        ls_session (storage (isLoggedIn now st).2) = None
        /\ forall now', (isLoggedIn now' (isLoggedIn now st).2).1 = false)
  /\ (getUserRole now st).1
       = (if (isLoggedIn now st).1
          then v_role ∘ s_user <$> ls_session (storage st) else None)
  /\ (getUserType now st).1
       = (if (isLoggedIn now st).1
          then v_type ∘ s_user <$> ls_session (storage st) else None)
  /\ (forall u t_login t_now,
        (isLoggedIn now (createSession u t_login t_now st)).1 = true
        <-> (now <= t_now + 86400000)%Z).
Proof.
  unfold isLoggedIn, getUserRole, getUserType.
  split; [|split; [|split; [|split; [|split]]]].
  - destruct (getSession_cases now st)
      as [[-> Hn]|[(s & Hs & Hlt & ->)|(s & Hs & Hle & ->)]]; simpl.
    + split; [done|]. intros (s & Hs & _). congruence.
    + split; [done|]. intros (s' & Hs' & Hle). rewrite Hs in Hs'.
      injection Hs' as <-. lia.
    + split; [|done]. intros _. by exists s.
  - destruct (getSession_cases now st)
      as [[-> Hn]|[(s & Hs & Hlt & ->)|(s & Hs & Hle & ->)]]; simpl; done.
  - destruct (getSession_cases now st)
      as [[-> Hn]|[(s & Hs & Hlt & ->)|(s & Hs & Hle & ->)]]; simpl; try done.
    + intros _. split; [done|]. intros now'. unfold getSession. by rewrite Hn.
  - destruct (getSession_cases now st)
      as [[-> Hn]|[(s & Hs & Hlt & ->)|(s & Hs & Hle & ->)]]; simpl; try done.
    by rewrite Hs.
  - destruct (getSession_cases now st)
      as [[-> Hn]|[(s & Hs & Hlt & ->)|(s & Hs & Hle & ->)]]; simpl; try done.
    by rewrite Hs.
  - intros u t_login t_now. unfold getSession, createSession. simpl.
    unfold DAY_MS. destruct (Z.ltb_spec (t_now + 24 * 60 * 60 * 1000) now); simpl.
    + split; [done|lia].
    + split; [lia|done].
Qed.

Lemma isLoggedIn_spec_witness :
  (isLoggedIn 1700086400000
     (createSession (mkView "user@example.com" "Attendee" "normal" "Emily Davis")
                    1700000000000 1700000000000 fresh)).1 = true
  /\ (isLoggedIn 1700086400001
        (createSession (mkView "user@example.com" "Attendee" "normal" "Emily Davis")
                       1700000000000 1700000000000 fresh)).1 <> true.
Proof.
  split.
  - apply isLoggedIn_spec. lia.
  - intros H. apply isLoggedIn_spec in H. lia.
Defined.

(** ** Routing *)

Lemma own_dashboards (role page : string) :
  own role dashboards = Some page -> page ∈ DASHBOARD_PAGES.
Proof.
  unfold dashboards, DASHBOARD_PAGES. cbn -[String.eqb].
  repeat (match goal with |- context [String.eqb ?a role] => destruct (String.eqb a role) end;
          [intros [= <-]; in_list|]).
  done.
Qed.

(** X11. [getDashboardUrl] yields one of the four dashboard pages for
    every role, with a single kind of exception: a role that is none of
    the five listed and names a property of [Object.prototype], for which
    it yields that inherited value. Every other unlisted role gets the
    user dashboard. *)
Theorem getDashboardUrl_total (proto : string -> bool) (role : string) :
  (forall k, getDashboardUrl proto role = Inherited k <->
     k = role /\ own role dashboards = None /\ proto role = true)
  /\ (forall page, getDashboardUrl proto role = Value page -> page ∈ DASHBOARD_PAGES)
  /\ (own role dashboards = None -> proto role = false ->
        getDashboardUrl proto role = Value "dashboard-user.html").
Proof.
  unfold getDashboardUrl, lookup_or.
  destruct (own role dashboards) as [page|] eqn:Hown.
  - split; [|split].
    + intros k. split; [done|]. by intros (_ & ? & _).
    + intros p [= <-]. by apply own_dashboards with role.
    + done.
  - destruct (proto role) eqn:Hp.
    + split; [|split]; [|done|done].
      intros k. split; [by intros [= <-]|by intros (-> & _)].
    + split; [|split]; [|intros p [= <-]; unfold DASHBOARD_PAGES; in_list|done].
      intros k. split; [done|]. by intros (_ & _ & ?).
Qed.

Lemma getDashboardUrl_total_witness :
  getDashboardUrl (fun k => String.eqb k "constructor") "Guest"
  = Value "dashboard-user.html".
Proof.
  apply (getDashboardUrl_total (fun k => String.eqb k "constructor") "Guest");
    reflexivity.
Defined.

Lemma seed_view_role (v : UserView) :
  v ∈ sanitize <$> DEMO_USERS -> exists page, own (v_role v) dashboards = Some page.
Proof.
  intros Hv. change (sanitize <$> DEMO_USERS) with
    [sanitize (mkUser "superadmin@intuvia.com" "Admin@123" "Super Admin" "enterprise" "John Smith");
     sanitize (mkUser "admin@intuvia.com" "Admin@123" "Admin" "enterprise" "Sarah Johnson");
     sanitize (mkUser "viewer@intuvia.com" "Viewer@123" "Viewer" "enterprise" "Mike Wilson");
     sanitize (mkUser "user@example.com" "User@123" "Attendee" "normal" "Emily Davis");
     sanitize (mkUser "organizer@example.com" "Organizer@123" "Organizer" "normal" "Alex Brown")]
    in Hv.
  repeat (apply elem_of_cons in Hv as [->|Hv]; [eexists; reflexivity|]).
  by apply elem_of_nil in Hv.
Qed.

Lemma reachable_view_role (st : State) (u : User) :
  reachable st -> u ∈ getUsers st ->
  exists page, own (role u) dashboards = Some page.
Proof.
  intros Hr Hu. apply (seed_view_role (sanitize u)).
  rewrite <- (reachable_users_sanitize st Hr).
  by apply list_elem_of_fmap_2.
Qed.

(** X12. Whoever logs in lands on a dashboard. In every reachable
    state, the user that [validateLogin], [loginWithSSO] or
    [loginWithGoogle] succeeds with has a role of the routing table, so
    after [createSession] a [redirectToDashboard] made before the expiry
    navigates to the page listed for that role, one of the four
    dashboards, whatever [Object.prototype] holds. *)
Theorem login_lands_on_dashboard
    (proto : string -> bool) (st : State) (v : UserView)
    (e pw d : string) (h : option string) (t_login t_now now : Z) :
  reachable st ->
  validateLogin e pw st = Success v \/ loginWithSSO d st = Success v
    \/ loginWithGoogle h st = Success v ->
  (now <= t_now + 86400000)%Z ->
  exists page,
    redirectToDashboard proto now (createSession v t_login t_now st)
      = (Some (Value page), createSession v t_login t_now st)
    /\ own (v_role v) dashboards = Some page
    /\ page ∈ DASHBOARD_PAGES.
Proof.
  intros Hr Hlogin Hnow.
  assert (exists page, own (v_role v) dashboards = Some page) as [page Hpage].
  { destruct Hlogin as [Hl|[Hl|Hl]].
    - unfold validateLogin in Hl.
      destruct (find (same_email e) (getUsers st)) as [u|] eqn:Hf; [|done].
      destruct (negb _); [done|]. injection Hl as <-.
      apply find_first_at in Hf as (i & Hi & _).
      apply (reachable_view_role st u Hr). apply list_elem_of_lookup. eauto.
    - unfold loginWithSSO in Hl.
      pose proof (head_filter (fun u => String.eqb (type u) "enterprise"
                    && Str.endsWith (email u) ("@" ++ d)) (getUsers st)) as Hh.
      destruct (List.filter _ (getUsers st)) as [|u us]; [done|].
      injection Hl as <-. simpl in Hh. symmetry in Hh.
      apply find_first_at in Hh as (i & Hi & _).
      apply (reachable_view_role st u Hr). apply list_elem_of_lookup. eauto.
    - unfold loginWithGoogle in Hl.
      match type of Hl with
      | match ?f with _ => _ end = _ => destruct f as [u|] eqn:Hf
      end.
      + injection Hl as <-.
        assert (u ∈ getUsers st) as Hu.
        { destruct (match h with Some s => if Str.truthy s then Some s else None
                             | None => None end);
            apply find_first_at in Hf as (i & Hi & _);
            apply list_elem_of_lookup; eauto. }
        by apply (reachable_view_role st u Hr).
      + injection Hl as <-. by eexists. }
  exists page. split; [|split; [done|by apply own_dashboards with (v_role v)]].
  unfold redirectToDashboard, getSession, createSession. simpl.
  unfold DAY_MS. destruct (Z.ltb_spec (t_now + 24 * 60 * 60 * 1000) now); [lia|].
  simpl. unfold getDashboardUrl, lookup_or. by rewrite Hpage.
Qed.

Lemma login_lands_on_dashboard_witness :
  exists page,
    redirectToDashboard (fun _ => true) 1700000000500
      (createSession (mkView "admin@intuvia.com" "Admin" "enterprise" "Sarah Johnson")
                     1700000000000 1700000000000 (pageLoad fresh))
    = (Some (Value page),
       createSession (mkView "admin@intuvia.com" "Admin" "enterprise" "Sarah Johnson")
                     1700000000000 1700000000000 (pageLoad fresh))
    /\ own "Admin" dashboards = Some page
    /\ page ∈ DASHBOARD_PAGES.
Proof.
  apply (login_lands_on_dashboard (fun _ => true) (pageLoad fresh)
           (mkView "admin@intuvia.com" "Admin" "enterprise" "Sarah Johnson")
           "admin@intuvia.com" "Admin@123" "intuvia.com" None
           1700000000000 1700000000000 1700000000500).
  - apply (reach_step OpPageLoad), reach_fresh.
  - left. reflexivity.
  - lia.
Defined.

Lemma includes_spec (roles : list string) (r : string) :
  includes roles (Some r) = true <-> r ∈ roles.
Proof.
  simpl. rewrite existsb_exists. split.
  - intros (x & Hx & Heq). apply String.eqb_eq in Heq as <-. by apply list_elem_of_In.
  - intros Hr. exists r. split; [by apply list_elem_of_In|apply String.eqb_refl].
Qed.

Lemma isLoggedIn_cases (now : Z) (st : State) :
  (isLoggedIn now st = (true, st)
     /\ exists s, ls_session (storage st) = Some s /\ (now <= expiresAt s)%Z)
  \/ ((isLoggedIn now st).1 = false
        /\ ls_session (storage (isLoggedIn now st).2) = None
        /\ forall s, ls_session (storage st) = Some s -> (expiresAt s < now)%Z).
Proof.
  unfold isLoggedIn.
  destruct (getSession_cases now st)
    as [[-> Hn]|[(s & Hs & Hlt & ->)|(s & Hs & Hle & ->)]]; simpl.
  - right. split; [done|]. split; [done|]. intros s. by rewrite Hn.
  - right. split; [done|]. split; [done|]. intros s'. rewrite Hs. by intros [= <-].
  - left. split; [done|]. by exists s.
Qed.

Lemma protectRoute_logged_out (roles : list string) (now1 now2 : Z) (st : State) :
  (forall s, ls_session (storage st) = Some s -> (expiresAt s < now1)%Z) ->
  (protectRoute roles now1 now2 st).1 = mkRoute false (Some "index.html")
  /\ ls_session (storage (protectRoute roles now1 now2 st).2) = None.
Proof.
  intros Hexp. unfold protectRoute, isLoggedIn, getSession.
  destruct (ls_session (storage st)) as [s|] eqn:Hs; [|done].
  specialize (Hexp s eq_refl). by destruct (Z.ltb_spec (expiresAt s) now1); [|lia].
Qed.

Lemma protectRoute_logged_in (roles : list string) (now1 now2 : Z) (st : State)
    (s : Session) :
  ls_session (storage st) = Some s ->
  (now1 <= expiresAt s)%Z -> (now2 <= expiresAt s)%Z ->
  protectRoute roles now1 now2 st
  = (mkRoute (match roles with
              | [] => true
              | _ => includes roles (Some (v_role (s_user s)))
              end) None, st).
Proof.
  intros Hs H1 H2. unfold protectRoute, isLoggedIn, getUserRole, getSession.
  rewrite Hs. destruct (Z.ltb_spec (expiresAt s) now1); [lia|]. simpl.
  rewrite Hs. destruct (Z.ltb_spec (expiresAt s) now2); [lia|]. simpl.
  destruct roles as [|r roles]; [done|].
  change (0 <? length (r :: roles))%nat with true.
  unfold includes. by destruct (existsb _ (r :: roles)).
Qed.

Lemma protectRoute_expired_between (roles : list string) (now1 now2 : Z) (st : State)
    (s : Session) :
  ls_session (storage st) = Some s ->
  (now1 <= expiresAt s)%Z -> (expiresAt s < now2)%Z ->
  protectRoute roles now1 now2 st
  = (mkRoute (match roles with [] => true | _ => false end) None, logout st).
Proof.
  intros Hs Hle Hlt. unfold protectRoute, isLoggedIn, getUserRole, getSession.
  rewrite Hs. destruct (Z.ltb_spec (expiresAt s) now1); [lia|]. simpl.
  rewrite Hs. destruct (Z.ltb_spec (expiresAt s) now2); [|lia]. simpl.
  by destruct roles.
Qed.

(** X13. [protectRoute] never admits anyone without a session: when it
    returns [true], the slot held a session that had not expired at the
    first clock reading, and, if a list of roles was given, that session
    had not expired at the second reading either and its role is in the
    list. It sends the browser to [index.html] exactly when no unexpired
    session is stored, and then leaves the slot empty. With an unexpired
    session and an admissible role it returns [true] and changes
    nothing. *)
Theorem protectRoute_sound (roles : list string) (now1 now2 : Z) (st : State) :
  (allowed (protectRoute roles now1 now2 st).1 = true ->
     exists s, ls_session (storage st) = Some s /\ (now1 <= expiresAt s)%Z
       /\ (roles = [] \/ ((now2 <= expiresAt s)%Z /\ v_role (s_user s) ∈ roles)))
  /\ (navigate (protectRoute roles now1 now2 st).1 = Some "index.html"
        <-> forall s, ls_session (storage st) = Some s -> (expiresAt s < now1)%Z)
  /\ (navigate (protectRoute roles now1 now2 st).1 <> None ->
        allowed (protectRoute roles now1 now2 st).1 = false
        /\ ls_session (storage (protectRoute roles now1 now2 st).2) = None)
  /\ (forall s, ls_session (storage st) = Some s ->
        (now1 <= expiresAt s)%Z -> (now2 <= expiresAt s)%Z ->
        roles = [] \/ v_role (s_user s) ∈ roles ->
        protectRoute roles now1 now2 st = (mkRoute true None, st)).
Proof.
  assert (Hvalid : forall s, ls_session (storage st) = Some s ->
            (now1 <= expiresAt s)%Z -> (now2 <= expiresAt s)%Z ->
            roles = [] \/ v_role (s_user s) ∈ roles ->
            protectRoute roles now1 now2 st = (mkRoute true None, st)).
  { intros s Hs H1 H2 Hrole.
    rewrite (protectRoute_logged_in roles now1 now2 st s Hs H1 H2).
    destruct roles as [|r roles]; [done|].
    destruct Hrole as [?|Hin]; [done|]. by apply includes_spec in Hin as ->. }
  refine ((fun H => conj (proj1 H) (conj (proj1 (proj2 H))
                                         (conj (proj2 (proj2 H)) Hvalid))) _).
  clear Hvalid.
  destruct (ls_session (storage st)) as [s|] eqn:Hs.
  - destruct (Z.ltb_spec (expiresAt s) now1) as [Hexp1|Hok1].
    + destruct (protectRoute_logged_out roles now1 now2 st) as [Hr Hn].
      { intros s'. rewrite Hs. by intros [= <-]. }
      rewrite Hr, Hn. simpl. split; [done|]. split; [|done].
      split; [|done]. intros _ s'. by intros [= <-].
    + destruct (Z.ltb_spec (expiresAt s) now2) as [Hexp2|Hok2].
      * rewrite (protectRoute_expired_between roles now1 now2 st s Hs Hok1 Hexp2).
        simpl. split; [|split; [|done]].
        -- destruct roles; [|done]. intros _. exists s.
           split; [done|]. split; [done|by left].
        -- split; [done|]. intros H. specialize (H s eq_refl). lia.
      * rewrite (protectRoute_logged_in roles now1 now2 st s Hs Hok1 Hok2).
        simpl. split; [|split; [|done]].
        -- destruct roles as [|r roles].
           ++ intros _. exists s. split; [done|]. split; [done|by left].
           ++ intros Hinc. exists s. split; [done|]. split; [done|right].
              split; [done|]. by apply includes_spec.
        -- split; [done|]. intros H. specialize (H s eq_refl). lia.
  - destruct (protectRoute_logged_out roles now1 now2 st) as [Hr Hn];
      [intros s'; rewrite Hs; discriminate|].
    rewrite Hr, Hn. simpl. split; [done|]. split; done.
Qed.

Lemma protectRoute_sound_witness :
  protectRoute ["Admin"; "Super Admin"] 1700000000100 1700000000101
    (createSession (mkView "admin@intuvia.com" "Admin" "enterprise" "Sarah Johnson")
                   1700000000000 1700000000000 (pageLoad fresh))
  = (mkRoute true None,
     createSession (mkView "admin@intuvia.com" "Admin" "enterprise" "Sarah Johnson")
                   1700000000000 1700000000000 (pageLoad fresh)).
Proof.
  apply (proj2 (proj2 (proj2 (protectRoute_sound ["Admin"; "Super Admin"]
           1700000000100 1700000000101
           (createSession (mkView "admin@intuvia.com" "Admin" "enterprise" "Sarah Johnson")
                          1700000000000 1700000000000 (pageLoad fresh)))))
         (mkSession (mkView "admin@intuvia.com" "Admin" "enterprise" "Sarah Johnson")
                    1700000000000 1700086400000)).
  - reflexivity.
  - simpl. lia.
  - simpl. lia.
  - right. simpl. in_list.
Defined.

(** X14. When the session expires between the two clock readings of
    [protectRoute], the call deletes the session and does not send the
    browser to [index.html]; it returns [true] if no roles were asked for
    and [false] otherwise. *)
Theorem protectRoute_expiry_between_reads
    (roles : list string) (now1 now2 : Z) (st : State) (s : Session) :
  ls_session (storage st) = Some s ->
  (now1 <= expiresAt s)%Z -> (expiresAt s < now2)%Z ->
  protectRoute roles now1 now2 st
  = (mkRoute (match roles with [] => true | _ => false end) None, logout st)
  /\ ls_session (storage (protectRoute roles now1 now2 st).2) = None.
Proof.
  intros Hs Hle Hlt.
  rewrite (protectRoute_expired_between roles now1 now2 st s Hs Hle Hlt). done.
Qed.

Lemma protectRoute_expiry_between_reads_witness :
  protectRoute [] 1700086400000 1700086400001
    (createSession (mkView "user@example.com" "Attendee" "normal" "Emily Davis")
                   1700000000000 1700000000000 fresh)
  = (mkRoute true None, fresh).
Proof.
  refine (proj1 (protectRoute_expiry_between_reads [] 1700086400000 1700086400001
    (createSession (mkView "user@example.com" "Attendee" "normal" "Emily Davis")
                   1700000000000 1700000000000 fresh)
    (mkSession (mkView "user@example.com" "Attendee" "normal" "Emily Davis")
               1700000000000 1700086400000) eq_refl _ _)); simpl; lia.
Defined.

(** ** Permissions *)

Lemma hasAccess_logged_in (proto : string -> bool) (f : string) (now : Z)
    (st : State) (s : Session) :
  ls_session (storage st) = Some s -> (now <= expiresAt s)%Z ->
  hasAccess proto f now st
  = (match lookup_or proto permissions (v_role (s_user s)) [] with
     | Value ps => Returns (existsb (String.eqb f) ps)
     | Inherited _ => ThrowsTypeError
     end, st).
Proof.
  intros Hs Hle. unfold hasAccess, getUserRole, getSession. rewrite Hs.
  destruct (Z.ltb_spec (expiresAt s) now); [lia|]. simpl.
  by destruct (lookup_or proto permissions (v_role (s_user s)) []).
Qed.

Lemma existsb_eqb_elem (f : string) (l : list string) :
  existsb (String.eqb f) l = true <-> f ∈ l.
Proof.
  rewrite existsb_exists. split.
  - intros (x & Hx & Heq). apply String.eqb_eq in Heq as <-. by apply list_elem_of_In.
  - intros Hf. exists f. split; [by apply list_elem_of_In|apply String.eqb_refl].
Qed.

Lemma granted_inv (proto : string -> bool) (f r : string) :
  match lookup_or proto permissions r [] with
  | Value ps => Returns (existsb (String.eqb f) ps)
  | Inherited _ => ThrowsTypeError
  end = Returns true ->
  exists ps, own r permissions = Some ps /\ f ∈ ps.
Proof.
  unfold lookup_or. destruct (own r permissions) as [ps|].
  - intros [= H]. exists ps. split; [done|]. by apply existsb_eqb_elem.
  - by destruct (proto r).
Qed.

(** X15. Without an unexpired session nobody has access to anything:
    [hasAccess] then deletes whatever the session slot held and answers
    [false] for every feature (on a host whose [Object.prototype] has no
    property called [null]; on one that has, the call throws). *)
Theorem hasAccess_without_session
    (proto : string -> bool) (f : string) (now : Z) (st : State) :
  (forall s, ls_session (storage st) = Some s -> (expiresAt s < now)%Z) ->
  (hasAccess proto f now st).1
    = (if proto "null" then ThrowsTypeError else Returns false)
  /\ ls_session (storage (hasAccess proto f now st).2) = None.
Proof.
  intros Hexp. unfold hasAccess, getUserRole, getSession.
  destruct (ls_session (storage st)) as [s|] eqn:Hs.
  - specialize (Hexp s eq_refl). destruct (Z.ltb_spec (expiresAt s) now); [|lia].
    simpl. unfold lookup_or. simpl. by destruct (proto "null").
  - simpl. unfold lookup_or. simpl. by destruct (proto "null").
Qed.

Lemma hasAccess_without_session_witness :
  (hasAccess (fun _ => false) "events" 1700086400001
     (createSession (mkView "admin@intuvia.com" "Admin" "enterprise" "Sarah Johnson")
                    1700000000000 1700000000000 fresh)).1 = Returns false.
Proof.
  refine (proj1 (hasAccess_without_session (fun _ => false) "events" 1700086400001
    (createSession (mkView "admin@intuvia.com" "Admin" "enterprise" "Sarah Johnson")
                   1700000000000 1700000000000 fresh) _)).
  intros s [= <-]. reflexivity.
Defined.

(** X16. The permission table is a hierarchy under the Super Admin.
    With an unexpired session, [hasAccess] grants a feature exactly when
    the table lists it for the session's role. Whatever it grants to any
    role it grants to a Super Admin; every listed role is granted
    [events]; and [admins], [budget], [sales], [settings] and
    [delete-event] are granted to the Super Admin alone. *)
Theorem hasAccess_hierarchy
    (proto : string -> bool) (f : string) (now : Z) (st : State) (s : Session) :
  ls_session (storage st) = Some s -> (now <= expiresAt s)%Z ->
  ((hasAccess proto f now st).1 = Returns true <->
     exists ps, own (v_role (s_user s)) permissions = Some ps /\ f ∈ ps)
  /\ ((hasAccess proto f now st).1 = Returns true ->
        forall st' s', ls_session (storage st') = Some s' ->
          (now <= expiresAt s')%Z -> v_role (s_user s') = "Super Admin" ->
          (hasAccess proto f now st').1 = Returns true)
  /\ ((exists ps, own (v_role (s_user s)) permissions = Some ps) ->
        (hasAccess proto "events" now st).1 = Returns true)
  /\ ((hasAccess proto f now st).1 = Returns true ->
        f ∈ ["admins"; "budget"; "sales"; "settings"; "delete-event"] ->
        v_role (s_user s) = "Super Admin").
Proof.
  intros Hs Hle. rewrite !(hasAccess_logged_in proto _ now st s Hs Hle). cbn [fst].
  assert (Htable : forall ps, own (v_role (s_user s)) permissions = Some ps ->
            "events" ∈ ps
            /\ (forall g, g ∈ ps ->
                  g ∈ ["events"; "admins"; "budget"; "sales"; "logs"; "settings";
                       "create-event"; "edit-event"; "delete-event"])
            /\ (forall g, g ∈ ps ->
                  g ∈ ["admins"; "budget"; "sales"; "settings"; "delete-event"] ->
                  v_role (s_user s) = "Super Admin")).
  { intros ps. unfold permissions. cbn -[String.eqb].
    repeat (match goal with
            | |- context [String.eqb ?a (v_role (s_user s))] =>
                destruct (String.eqb_spec a (v_role (s_user s))) as [Heq|_]
            end;
            [intros [= <-]; split; [in_list|]; split;
               [intros g Hg; repeat (apply elem_of_cons in Hg as [->|Hg]; [in_list|]);
                by apply elem_of_nil in Hg
               |intros g Hg Hg'; try (symmetry; exact Heq);
                repeat (apply elem_of_cons in Hg as [->|Hg];
                  [repeat (apply elem_of_cons in Hg' as [Hg'|Hg']; [discriminate Hg'|]);
                   by apply elem_of_nil in Hg'|]);
                by apply elem_of_nil in Hg]
            |]).
    done. }
  split; [|split; [|split]].
  - split; [apply granted_inv|].
    intros (ps & Hps & Hf). unfold lookup_or. rewrite Hps.
    by apply existsb_eqb_elem in Hf as ->.
  - intros Hg st' s' Hs' Hle' Hrole.
    rewrite (hasAccess_logged_in proto f now st' s' Hs' Hle'), Hrole. cbn [fst].
    apply granted_inv in Hg as (ps & Hps & Hf).
    destruct (Htable ps Hps) as (_ & Hsub & _).
    unfold lookup_or. cbn -[String.eqb existsb]. rewrite String.eqb_refl.
    f_equal. apply existsb_eqb_elem. by apply Hsub.
  - intros (ps & Hps). unfold lookup_or. rewrite Hps.
    destruct (Htable ps Hps) as (Hev & _). by apply existsb_eqb_elem in Hev as ->.
  - intros Hg Hf. apply granted_inv in Hg as (ps & Hps & Hin).
    destruct (Htable ps Hps) as (_ & _ & Honly). by apply (Honly f).
Qed.

Lemma hasAccess_hierarchy_witness :
  (hasAccess (fun _ => true) "create-event" 1700000000500
     (createSession (mkView "organizer@example.com" "Organizer" "normal" "Alex Brown")
                    1700000000000 1700000000000 fresh)).1 = Returns true.
Proof.
  apply (proj1 (hasAccess_hierarchy (fun _ => true) "create-event" 1700000000500
    (createSession (mkView "organizer@example.com" "Organizer" "normal" "Alex Brown")
                   1700000000000 1700000000000 fresh)
    (mkSession (mkView "organizer@example.com" "Organizer" "normal" "Alex Brown")
               1700000000000 1700086400000) eq_refl ltac:(simpl; lia))).
  exists ["events"; "create-event"; "edit-event"]. split; [reflexivity|in_list].
Defined.

(** ** Initials *)

Lemma split_space_cons (c : ascii) (r : string) :
  c <> " "%char ->
  Initials.split_space (String c r)
  = (String c (Initials.split_space r).1, (Initials.split_space r).2).
Proof.
  intros Hc. simpl. destruct (Initials.split_space r) as [f o].
  by apply Ascii.eqb_neq in Hc as ->.
Qed.

Lemma split_space_space (r : string) :
  Initials.split_space (String " " r)
  = (EmptyString, (Initials.split_space r).1 :: (Initials.split_space r).2).
Proof. simpl. by destruct (Initials.split_space r) as [f o]. Qed.

Lemma split_space_no_space (w : string) :
  no_space w -> Initials.split_space w = (w, []).
Proof.
  induction w as [|c w IH]; intros Hw; [done|].
  unfold no_space in Hw. simpl in Hw. apply not_elem_of_cons in Hw as [Hc Hw].
  rewrite split_space_cons by done. by rewrite (IH Hw).
Qed.

Lemma split_space_app (w r : string) :
  no_space w ->
  Initials.split_space (w ++ String " " r)
  = (w, (Initials.split_space r).1 :: (Initials.split_space r).2).
Proof.
  induction w as [|c w IH]; intros Hw.
  - apply split_space_space.
  - unfold no_space in Hw. simpl in Hw. apply not_elem_of_cons in Hw as [Hc Hw].
    change (String c w ++ String " " r) with (String c (w ++ String " " r)).
    rewrite split_space_cons by done. by rewrite (IH Hw).
Qed.

Lemma length_toUpperCase (s : string) :
  String.length (Initials.toUpperCase s) = String.length s.
Proof. induction s as [|c s IH]; simpl; [done|by rewrite IH]. Qed.

Lemma length_substring_le (n m : nat) (s : string) :
  (String.length (substring n m s) <= m)%nat.
Proof.
  revert n m. induction s as [|c s IH]; intros [|n] [|m]; simpl; try lia.
  - specialize (IH 0%nat m). lia.
  - apply (IH n 0%nat).
  - apply (IH n (S m)).
Qed.

(** X17. For a name written as expected, [getUserInitials] keeps its
    promise of at most two characters: a non-empty name without a space
    gives its first two characters in upper case, and a name whose first
    word is non-empty and whose first space is followed by a character
    other than a space gives the upper-case first letters of its first
    two words. *)
Theorem getUserInitials_well_formed :
  (forall name, name <> EmptyString -> no_space name ->
     Initials.getUserInitials name
       = Returns (Initials.toUpperCase (substring 0 2 name))
     /\ (String.length (Initials.toUpperCase (substring 0 2 name)) <= 2)%nat)
  /\ (forall c1 w c2 rest, no_space (String c1 w) -> c2 <> " "%char ->
        Initials.getUserInitials (String c1 w ++ String " " (String c2 rest))
        = Returns (String (Initials.upper_ascii c1)
                     (String (Initials.upper_ascii c2) EmptyString))).
Proof.
  split.
  - intros name Hne Hns. split.
    + unfold Initials.getUserInitials, Initials.split.
      rewrite (split_space_no_space name Hns). by destruct name.
    + rewrite length_toUpperCase. apply length_substring_le.
  - intros c1 w c2 rest Hns Hc2.
    unfold Initials.getUserInitials, Initials.split.
    rewrite (split_space_app (String c1 w) (String c2 rest) Hns).
    rewrite (split_space_cons c2 rest Hc2). reflexivity.
Qed.

Lemma getUserInitials_well_formed_witness :
  Initials.getUserInitials "Sarah Johnson" = Returns "SJ".
Proof.
  apply (proj2 getUserInitials_well_formed "S"%char "arah" "J"%char "ohnson").
  - unfold no_space. simpl. rewrite !not_elem_of_cons. repeat split; try discriminate.
    apply not_elem_of_nil.
  - discriminate.
Defined.

(** X18. [getUserInitials] throws a [TypeError] exactly for the names
    that consist of one space or begin with two spaces; for every other
    string it returns. *)
Theorem getUserInitials_throws_iff (name : string) :
  Initials.getUserInitials name = ThrowsTypeError
  <-> name = " " \/ exists rest, name = String " " (String " " rest).
Proof.
  destruct name as [|c r].
  - split; [done|]. intros [?|[rest ?]]; discriminate.
  - unfold Initials.getUserInitials, Initials.split.
    change (negb (Str.truthy (String c r))) with false. cbn iota.
    destruct (Ascii.eqb_spec c " ") as [->|Hc].
    + rewrite split_space_space.
      destruct r as [|c2 r2].
      * simpl. split; [by left|done].
      * destruct (Ascii.eqb_spec c2 " ") as [->|Hc2].
        -- rewrite split_space_space. simpl. split; [|done].
           intros _. right. by exists r2.
        -- rewrite (split_space_cons c2 r2 Hc2). simpl. split; [done|].
           intros [?|[rest [= ?]]]; [discriminate|done].
    + rewrite (split_space_cons c r Hc). simpl.
      destruct (Initials.split_space r) as [f [|p1 o]]; simpl.
      * split; [done|]. intros [[= ? _]|[rest [= ? _]]]; done.
      * split; [by destruct (Initials.first_char p1)|].
        intros [[= ? _]|[rest [= ? _]]]; done.
Qed.

(** X19. A stray space makes the initials spell out [undefined]: a
    name that begins with one space followed by another character
    [c] gives ["UNDEFINED"] followed by [c] in upper case, and a name
    whose first word is followed by a space and then by nothing or by
    another space gives the first letter in upper case followed by
    ["UNDEFINED"]; either is longer than the two characters
    promised. *)
Theorem getUserInitials_stray_space :
  (forall c rest, c <> " "%char ->
     Initials.getUserInitials (String " " (String c rest))
     = Returns ("UNDEFINED" ++ String (Initials.upper_ascii c) EmptyString))
  /\ (forall c1 w rest, no_space (String c1 w) ->
        rest = EmptyString \/ (exists r, rest = String " " r) ->
        Initials.getUserInitials (String c1 w ++ String " " rest)
        = Returns (String (Initials.upper_ascii c1) "UNDEFINED")).
Proof.
  split.
  - intros c rest Hc. unfold Initials.getUserInitials, Initials.split.
    rewrite split_space_space, (split_space_cons c rest Hc). reflexivity.
  - intros c1 w rest Hns Hrest.
    unfold Initials.getUserInitials, Initials.split.
    rewrite (split_space_app (String c1 w) rest Hns).
    destruct Hrest as [->|[r ->]]; [reflexivity|].
    rewrite split_space_space. reflexivity.
Qed.

Lemma getUserInitials_stray_space_witness :
  Initials.getUserInitials "Emily  Davis" = Returns "EUNDEFINED".
Proof.
  apply (proj2 getUserInitials_stray_space "E"%char "mily" " Davis").
  - unfold no_space. simpl. rewrite !not_elem_of_cons. repeat split; try discriminate.
    apply not_elem_of_nil.
  - right. by exists "Davis".
Defined.

(** ** The regular-expression matcher *)

Section RegexFacts.
Import Regex.

Lemma lang_cat_inv (a b : re) (s : list ascii) :
  lang (Cat a b) s -> exists s1 s2, s = (s1 ++ s2)%list /\ lang a s1 /\ lang b s2.
Proof. inversion 1; subst. eauto. Qed.

Lemma lang_star_cons_inv (a : re) (c : ascii) (s : list ascii) :
  lang (Star a) (c :: s) ->
  exists s1 s2, s = (s1 ++ s2)%list /\ lang a (c :: s1) /\ lang (Star a) s2.
Proof.
  intros H. remember (Star a) as r eqn:Hr. remember (c :: s) as cs eqn:Hcs.
  induction H as [| | | | | |a' s1 s2 H1 _ H2 IH2]; try discriminate.
  injection Hr as ->. destruct s1 as [|c' s1].
  - simpl in Hcs. by apply IH2.
  - injection Hcs as -> <-. eauto.
Qed.

Lemma nullable_spec (r : re) : nullable r = true <-> lang r [].
Proof.
  induction r as [| |f|a IHa b IHb|a IHa b IHb|a IHa]; simpl.
  - split; [done|]. inversion 1.
  - split; [constructor|done].
  - split; [done|]. inversion 1.
  - rewrite andb_true_iff, IHa, IHb. split.
    + intros [Ha Hb]. by apply (lang_cat a b [] []).
    + intros H. apply lang_cat_inv in H as (s1 & s2 & Heq & H1 & H2).
      symmetry in Heq. apply app_eq_nil in Heq as [-> ->]. done.
  - rewrite orb_true_iff, IHa, IHb. split.
    + intros [H|H]; [by apply lang_alt_l|by apply lang_alt_r].
    + inversion 1; subst; eauto.
  - split; [constructor|done].
Qed.

Lemma deriv_spec (r : re) (c : ascii) (s : list ascii) :
  lang (deriv c r) s <-> lang r (c :: s).
Proof.
  revert s. induction r as [| |f|a IHa b IHb|a IHa b IHb|a IHa]; intros s; simpl.
  - split; inversion 1.
  - split; inversion 1.
  - destruct (f c) eqn:Hf.
    + split.
      * inversion 1; subst. by constructor.
      * inversion 1; subst. constructor.
    + split; [inversion 1|]. inversion 1; subst. congruence.
  - assert (Hcat : lang (Cat (deriv c a) b) s -> lang (Cat a b) (c :: s)).
    { intros H. apply lang_cat_inv in H as (s1 & s2 & -> & H1 & H2).
      apply IHa in H1. by apply (lang_cat a b (c :: s1) s2). }
    assert (Hinv : lang (Cat a b) (c :: s) ->
              lang (Cat (deriv c a) b) s \/ (lang a [] /\ lang (deriv c b) s)).
    { intros H. apply lang_cat_inv in H as (s1 & s2 & Heq & H1 & H2).
      destruct s1 as [|c' s1].
      - right. simpl in Heq. subst s2. split; [done|]. by apply IHb.
      - injection Heq as <- ->. left. apply lang_cat; [by apply IHa|done]. }
    destruct (nullable a) eqn:Hn.
    + split.
      * inversion 1; subst; [by apply Hcat|].
        apply nullable_spec in Hn. apply (lang_cat a b [] (c :: s)); [done|by apply IHb].
      * intros H. apply Hinv in H as [H|[_ H]]; [by apply lang_alt_l|by apply lang_alt_r].
    + split; [exact Hcat|].
      intros H. apply Hinv in H as [H|[H _]]; [done|].
      apply nullable_spec in H. congruence.
  - split.
    + inversion 1; subst; [apply lang_alt_l|apply lang_alt_r]; by (apply IHa || apply IHb).
    + inversion 1; subst; [apply lang_alt_l|apply lang_alt_r]; by (apply IHa || apply IHb).
  - split.
    + intros H. apply lang_cat_inv in H as (s1 & s2 & -> & H1 & H2).
      apply IHa in H1. by apply (lang_star_cons a (c :: s1) s2).
    + intros H. apply lang_star_cons_inv in H as (s1 & s2 & -> & H1 & H2).
      apply lang_cat; [by apply IHa|done].
Qed.

Lemma accepts_spec (r : re) (s : list ascii) : accepts r s = true <-> lang r s.
Proof.
  revert r. induction s as [|c s IH]; intros r; simpl.
  - apply nullable_spec.
  - rewrite IH. apply deriv_spec.
Qed.

Lemma lang_class_inv (f : ascii -> bool) (s : list ascii) :
  lang (Class f) s <-> exists c, s = [c] /\ f c = true.
Proof.
  split.
  - inversion 1; subst. eauto.
  - intros (c & -> & Hc). by constructor.
Qed.

Lemma lang_star_class (f : ascii -> bool) (s : list ascii) :
  lang (Star (Class f)) s <-> forall c, c ∈ s -> f c = true.
Proof.
  split.
  - intros H. remember (Star (Class f)) as r eqn:Hr.
    induction H as [| | | | | |a s1 s2 H1 _ H2 IH2]; try discriminate.
    + intros c Hc. by apply elem_of_nil in Hc.
    + injection Hr as ->. apply lang_class_inv in H1 as (c1 & -> & Hc1).
      intros c Hc. apply elem_of_cons in Hc as [->|Hc]; [done|by apply IH2].
  - induction s as [|c s IH]; intros Hall; [constructor|].
    apply (lang_star_cons (Class f) [c] s).
    + constructor. apply Hall, list_elem_of_here.
    + apply IH. intros c' Hc'. by apply Hall, list_elem_of_further.
Qed.

Lemma lang_plus_class (f : ascii -> bool) (s : list ascii) :
  lang (Plus (Class f)) s <-> s <> [] /\ forall c, c ∈ s -> f c = true.
Proof.
  unfold Plus. split.
  - intros H. apply lang_cat_inv in H as (s1 & s2 & -> & H1 & H2).
    apply lang_class_inv in H1 as (c1 & -> & Hc1). split; [done|].
    intros c Hc. apply elem_of_cons in Hc as [->|Hc]; [done|].
    by apply (proj1 (lang_star_class f s2)).
  - intros [Hne Hall]. destruct s as [|c s]; [done|].
    apply (lang_cat (Class f) (Star (Class f)) [c] s).
    + constructor. apply Hall, list_elem_of_here.
    + apply lang_star_class. intros c' Hc'. by apply Hall, list_elem_of_further.
Qed.

Lemma lang_chr (c : ascii) (s : list ascii) : lang (Chr c) s <-> s = [c].
Proof.
  unfold Chr. rewrite lang_class_inv. split.
  - intros (c' & -> & Heq). by apply Ascii.eqb_eq in Heq as ->.
  - intros ->. exists c. split; [done|apply Ascii.eqb_refl].
Qed.

End RegexFacts.

(** ** Field rules *)

Lemma to_list_of_list (l : list ascii) : Str.to_list (string_of_list_ascii l) = l.
Proof. induction l as [|c l IH]; simpl; [done|by rewrite IH]. Qed.

Lemma of_list_to_list (s : string) : string_of_list_ascii (Str.to_list s) = s.
Proof. induction s as [|c s IH]; simpl; [done|by rewrite IH]. Qed.

Lemma of_list_app (x y : list ascii) :
  string_of_list_ascii (x ++ y)%list = string_of_list_ascii x ++ string_of_list_ascii y.
Proof.
  induction x as [|c x IH]; [done|].
  change (String c (string_of_list_ascii (x ++ y)%list)
          = String c (string_of_list_ascii x ++ string_of_list_ascii y)).
  by rewrite IH.
Qed.

Lemma to_list_nil (s : string) : Str.to_list s = [] <-> s = EmptyString.
Proof. by destruct s. Qed.

Lemma emailChar_spec (c : ascii) :
  Fields.emailChar c = true <-> Validation.isSpace c = false /\ c <> "@"%char.
Proof.
  unfold Fields.emailChar. rewrite negb_true_iff, orb_false_iff.
  by rewrite Ascii.eqb_neq.
Qed.

Lemma plain_spec (w : string) :
  plain w <->
  Str.to_list w <> [] /\ forall c, c ∈ Str.to_list w -> Fields.emailChar c = true.
Proof.
  unfold plain. rewrite to_list_nil. by setoid_rewrite emailChar_spec.
Qed.

Lemma plain_check (w : string) :
  Str.truthy w && forallb Fields.emailChar (Str.to_list w) = true -> plain w.
Proof.
  rewrite andb_true_iff, forallb_forall. intros [Hne Hall].
  apply plain_spec. split; [by destruct w|].
  intros c Hc. by apply Hall, list_elem_of_In.
Qed.

Lemma email_lang (e : string) :
  Regex.lang Fields.EMAIL (Str.to_list e) <-> email_shape e.
Proof.
  unfold Fields.EMAIL, email_shape. split.
  - intros H.
    apply lang_cat_inv in H as (l & r1 & Heq & Hl & H).
    apply lang_cat_inv in H as (at_ & r2 & -> & Hat & H).
    apply lang_cat_inv in H as (a & r3 & -> & Ha & H).
    apply lang_cat_inv in H as (dot & b & -> & Hdot & Hb).
    apply lang_chr in Hat as ->. apply lang_chr in Hdot as ->.
    apply lang_plus_class in Hl, Ha, Hb.
    exists (string_of_list_ascii l), (string_of_list_ascii a), (string_of_list_ascii b).
    rewrite !plain_spec, !to_list_of_list. split; [|done].
    rewrite <- (of_list_to_list e), Heq, !of_list_app. done.
  - intros (l & a & b & -> & Hl & Ha & Hb).
    apply plain_spec in Hl, Ha, Hb.
    rewrite !to_list_append.
    apply Regex.lang_cat; [by apply lang_plus_class|].
    apply Regex.lang_cat; [by apply lang_chr|].
    apply Regex.lang_cat; [by apply lang_plus_class|].
    apply Regex.lang_cat; [by apply lang_chr|by apply lang_plus_class].
Qed.

Lemma missing_spec (s : string) : Fields.missing s = true <-> all_space s.
Proof.
  unfold Fields.missing, Validation.blank, all_space.
  destruct s as [|c s].
  - split; [|done]. intros _ c Hc. by apply elem_of_nil in Hc.
  - change (negb (Str.truthy (String c s))) with false. rewrite orb_false_l.
    rewrite forallb_forall. by setoid_rewrite list_elem_of_In.
Qed.

Lemma email_shape_not_all_space (e : string) : email_shape e -> ~ all_space e.
Proof.
  intros (l & a & b & -> & [Hne Hl] & _) Hall.
  destruct l as [|c l]; [done|].
  assert (c ∈ Str.to_list (String c l ++ "@" ++ a ++ "." ++ b)) as Hc
    by apply list_elem_of_here.
  specialize (Hall c Hc). destruct (Hl c (list_elem_of_here _ _)). congruence.
Qed.

Lemma validateEmail_valid (e : string) :
  Validation.valid (Fields.validateEmail e) = true <-> email_shape e.
Proof.
  unfold Fields.validateEmail.
  destruct (Fields.missing e) eqn:Hm.
  - apply missing_spec in Hm. simpl.
    split; [done|]. intros Hs. by apply email_shape_not_all_space in Hs.
  - destruct (Regex.test_whole Fields.EMAIL e) eqn:Ht; simpl.
    + by apply accepts_spec, email_lang in Ht.
    + split; [done|]. intros H. apply email_lang, accepts_spec in H.
      unfold Regex.test_whole in Ht. congruence.
Qed.

(** X20. [validateEmail] accepts exactly the strings of the shape
    [local@domain.tld]: three non-empty parts free of white space and of
    ["@"], the first two joined by ["@"], the last two by a dot. It
    reports a missing field exactly for the strings made of white space
    only, the empty one included, and an invalid address for everything
    else. *)
Theorem validateEmail_spec (e : string) :
  (Validation.valid (Fields.validateEmail e) = true <-> email_shape e)
  /\ (Validation.message (Fields.validateEmail e) = Validation.MSG_required
        <-> all_space e)
  /\ (Validation.message (Fields.validateEmail e) = Fields.MSG_email
        <-> ~ all_space e /\ ~ email_shape e).
Proof.
  unfold Fields.validateEmail.
  destruct (Fields.missing e) eqn:Hm.
  - apply missing_spec in Hm. simpl. split; [|split].
    + split; [done|]. intros Hs. by apply email_shape_not_all_space in Hs.
    + done.
    + split; [done|]. by intros [? _].
  - assert (~ all_space e) as Hns.
    { intros H. apply missing_spec in H. congruence. }
    destruct (Regex.test_whole Fields.EMAIL e) eqn:Ht; simpl.
    + apply accepts_spec, email_lang in Ht. split; [done|]. split; [done|].
      split; [done|]. by intros [_ ?].
    + assert (~ email_shape e) as Hnot.
      { intros H. apply email_lang, accepts_spec in H.
        unfold Regex.test_whole in Ht. congruence. }
      split; [done|]. split; done.
Qed.

Lemma validateEmail_spec_witness :
  Validation.valid (Fields.validateEmail "a.b@mail.example.org") = true.
Proof.
  apply (proj1 (validateEmail_spec "a.b@mail.example.org")).
  exists "a.b", "mail", "example.org". split; [reflexivity|].
  split; [|split]; apply plain_check; reflexivity.
Defined.

Lemma filter_at_plain (w : string) :
  plain w -> List.filter (Ascii.eqb "@") (Str.to_list w) = [].
Proof.
  intros [_ Hw]. induction (Str.to_list w) as [|c l IH]; [done|].
  cbn -[Ascii.eqb].
  destruct (Hw c (list_elem_of_here _ _)) as [_ Hc].
  destruct (Ascii.eqb_spec "@" c) as [Heq|_]; [by subst|].
  apply IH. intros c' Hc'. by apply Hw, list_elem_of_further.
Qed.

Lemma plain_length (w : string) : plain w -> (1 <= String.length w)%nat.
Proof. intros [Hne _]. destruct w; [done|simpl; lia]. Qed.

(** X21. An address that [validateEmail] accepts contains no white
    space at all and exactly one ["@"], and has at least five
    characters. *)
Theorem validateEmail_valid_facts (e : string) :
  Validation.valid (Fields.validateEmail e) = true ->
  (forall c, c ∈ Str.to_list e -> Validation.isSpace c = false)
  /\ length (List.filter (Ascii.eqb "@") (Str.to_list e)) = 1%nat
  /\ (5 <= String.length e)%nat.
Proof.
  intros Hv.
  assert (email_shape e) as (l & a & b & -> & Hl & Ha & Hb).
  { unfold Fields.validateEmail in Hv.
    destruct (Fields.missing e); [done|].
    destruct (Regex.test_whole Fields.EMAIL e) eqn:Ht; [|done].
    by apply accepts_spec, email_lang in Ht. }
  split; [|split].
  - intros c. rewrite !to_list_append. simpl.
    rewrite elem_of_app, elem_of_cons, elem_of_app, elem_of_cons.
    intros [H|[->|[H|[->|H]]]]; try reflexivity;
      [apply Hl in H|apply Ha in H|apply Hb in H]; tauto.
  - rewrite !to_list_append. simpl. rewrite !List.filter_app. simpl.
    rewrite !List.filter_app. simpl.
    by rewrite (filter_at_plain l Hl), (filter_at_plain a Ha), (filter_at_plain b Hb).
  - rewrite !length_append. apply plain_length in Hl, Ha, Hb. simpl. lia.
Qed.

Lemma validateEmail_valid_facts_witness :
  (5 <= String.length "a@b.c")%nat.
Proof.
  apply (validateEmail_valid_facts "a@b.c"). reflexivity.
Defined.

(** X22. Every stored account passes the email check of the forms: in
    every reachable state the email of each stored user is accepted by
    [validateEmail]. *)
Theorem stored_emails_valid (st : State) (u : User) :
  reachable st -> u ∈ getUsers st ->
  Validation.valid (Fields.validateEmail (email u)) = true.
Proof.
  intros Hr Hu.
  assert (email u ∈ email <$> DEMO_USERS) as Hin.
  { destruct (reachable_seed_emails st Hr) as [Hmem Hls].
    assert (email <$> getUsers st = email <$> DEMO_USERS) as <-.
    { unfold getUsers. destruct (ls_users (storage st)); [by apply Hls|done]. }
    by apply list_elem_of_fmap_2. }
  change (email <$> DEMO_USERS) with
    ["superadmin@intuvia.com"; "admin@intuvia.com"; "viewer@intuvia.com";
     "user@example.com"; "organizer@example.com"] in Hin.
  repeat (apply elem_of_cons in Hin as [->|Hin]; [reflexivity|]).
  by apply elem_of_nil in Hin.
Qed.

Lemma stored_emails_valid_witness :
  Validation.valid (Fields.validateEmail "viewer@intuvia.com") = true.
Proof.
  apply (stored_emails_valid (pageLoad fresh)
           (mkUser "viewer@intuvia.com" "Viewer@123" "Viewer" "enterprise" "Mike Wilson")).
  - apply (reach_step OpPageLoad), reach_fresh.
  - change (getUsers (pageLoad fresh)) with DEMO_USERS. unfold DEMO_USERS. in_list.
Defined.

(** ** Password rules *)

Lemma met_count (b1 b2 b3 b4 b5 : bool) :
  length (List.filter id [b1; b2; b3; b4; b5])
  = (Nat.b2n b1 + Nat.b2n b2 + Nat.b2n b3 + Nat.b2n b4 + Nat.b2n b5)%nat.
Proof. by destruct b1, b2, b3, b4, b5. Qed.

Lemma allMet_spec (pw : string) :
  Validation.allMet (Validation.checkPasswordStrength pw) = true <-> meets_all pw.
Proof.
  unfold meets_all, long_enough, has_uppercase, has_lowercase, has_digit, has_symbol.
  rewrite <- (test_class_contains Validation.isUpper (between "A" "Z") pw)
    by apply (in_range_between "A" "Z").
  rewrite <- (test_class_contains Validation.isLower (between "a" "z") pw)
    by apply (in_range_between "a" "z").
  rewrite <- (test_class_contains Validation.isDigit (between "0" "9") pw)
    by apply (in_range_between "0" "9").
  rewrite <- (test_class_contains Validation.isSpecial _ pw) by apply isSpecial_spec.
  rewrite <- (Nat.leb_le 8 (String.length pw)).
  unfold Validation.checkPasswordStrength, Validation.values. cbn [Validation.allMet
    Validation.minLength Validation.hasUppercase Validation.hasLowercase
    Validation.hasNumber Validation.hasSpecial].
  rewrite met_count, Nat.eqb_eq. unfold Validation.MIN_LENGTH.
  destruct (8 <=? String.length pw)%nat, (Str.test_class Validation.isUpper pw),
    (Str.test_class Validation.isLower pw), (Str.test_class Validation.isDigit pw),
    (Str.test_class Validation.isSpecial pw); simpl; split;
    try lia; try tauto; intros (? & ? & ? & ? & ?); discriminate.
Qed.

Lemma meets_all_not_all_space (pw : string) : meets_all pw -> ~ all_space pw.
Proof.
  intros (_ & (c & Hc & Hup) & _) Hall. specialize (Hall c Hc).
  unfold between in Hup. unfold Validation.isSpace, Validation.in_range in Hall.
  change (nat_of_ascii "A") with 65%nat in Hup.
  change (nat_of_ascii "Z") with 90%nat in Hup.
  apply orb_true_iff in Hall as [Hall|Hall].
  - apply andb_true_iff in Hall as [_ Hall]. apply Nat.leb_le in Hall. lia.
  - apply Nat.eqb_eq in Hall. lia.
Qed.

Lemma missing_false (s : string) : Fields.missing s = false <-> ~ all_space s.
Proof. rewrite <- missing_spec. by destruct (Fields.missing s). Qed.

Lemma validatePassword_strong (pw : string) :
  Validation.valid (Validation.validatePassword pw true) = true <-> meets_all pw.
Proof.
  unfold Validation.validatePassword.
  change (negb (Str.truthy pw) || Validation.blank pw) with (Fields.missing pw).
  rewrite <- allMet_spec.
  assert (Validation.allMet (Validation.checkPasswordStrength pw) = true ->
          Fields.missing pw = false) as Himp.
  { intros H. by apply missing_false, meets_all_not_all_space, allMet_spec. }
  revert Himp. generalize (Validation.checkPasswordStrength pw). intros str Himp.
  destruct (Fields.missing pw), (Validation.allMet str); simpl; split; try done.
  intros _. by specialize (Himp eq_refl).
Qed.

Lemma validatePasswordMatch_valid (pw confirmPassword : string) :
  Validation.valid (Fields.validatePasswordMatch pw confirmPassword) = true
  <-> ~ all_space confirmPassword /\ pw = confirmPassword.
Proof.
  unfold Fields.validatePasswordMatch. rewrite <- missing_false.
  destruct (Fields.missing confirmPassword); simpl.
  - split; [done|]. by intros [? _].
  - destruct (String.eqb_spec pw confirmPassword); simpl; split; try done.
    by intros [_ ?].
Qed.

Lemma validateRequired_valid (value : string) :
  Validation.valid (Fields.validateRequired value) = true <-> ~ all_space value.
Proof.
  unfold Fields.validateRequired. rewrite <- missing_false.
  by destruct (Fields.missing value).
Qed.

(** X23. With strength enforced, [validatePassword] accepts exactly the
    passwords that meet all five requirements; without it, and likewise
    [validateRequired], exactly the strings that have a character other
    than white space. [validatePasswordMatch] accepts exactly a
    confirmation that has such a character and equals the password. *)
Theorem validatePassword_rules (pw confirmPassword : string) :
  (Validation.valid (Validation.validatePassword pw true) = true <-> meets_all pw)
  /\ (Validation.valid (Validation.validatePassword pw false) = true
        <-> ~ all_space pw)
  /\ (Validation.valid (Fields.validateRequired pw) = true <-> ~ all_space pw)
  /\ (Validation.valid (Fields.validatePasswordMatch pw confirmPassword) = true
        <-> ~ all_space confirmPassword /\ pw = confirmPassword).
Proof.
  split; [apply validatePassword_strong|].
  split; [|split; [apply validateRequired_valid|apply validatePasswordMatch_valid]].
  unfold Validation.validatePassword.
  change (negb (Str.truthy pw) || Validation.blank pw) with (Fields.missing pw).
  rewrite <- missing_false. by destruct (Fields.missing pw).
Qed.

Lemma validatePassword_rules_witness :
  Validation.valid (Fields.validatePasswordMatch "Abcdef1!" "Abcdef1!") = true.
Proof.
  apply (proj2 (proj2 (proj2 (validatePassword_rules "Abcdef1!" "Abcdef1!")))).
  split; [|reflexivity].
  intros H. apply missing_spec in H. discriminate H.
Defined.

Lemma test_class_append (cls : ascii -> bool) (s t : string) :
  Str.test_class cls (s ++ t) = Str.test_class cls s || Str.test_class cls t.
Proof. unfold Str.test_class. by rewrite to_list_append, existsb_app. Qed.

Lemma score_sum (pw : string) :
  Validation.score (Validation.checkPasswordStrength pw)
  = (Nat.b2n (8 <=? String.length pw)%nat
     + Nat.b2n (Str.test_class Validation.isUpper pw)
     + Nat.b2n (Str.test_class Validation.isLower pw)
     + Nat.b2n (Str.test_class Validation.isDigit pw)
     + Nat.b2n (Str.test_class Validation.isSpecial pw))%nat.
Proof. unfold Validation.checkPasswordStrength. simpl. apply met_count. Qed.

(** X24. Adding characters never weakens a password: the score that
    [checkPasswordStrength] gives to a string is at most the score it
    gives to that string with anything put before or after it. *)
Theorem score_monotone (pre s post : string) :
  (Validation.score (Validation.checkPasswordStrength s)
   <= Validation.score (Validation.checkPasswordStrength (pre ++ s ++ post)))%nat.
Proof.
  rewrite !score_sum, !test_class_append, !length_append.
  assert (Hlen : (Nat.b2n (8 <=? String.length s)
                  <= Nat.b2n (8 <=? String.length pre
                                    + (String.length s + String.length post)))%nat).
  { destruct (Nat.leb_spec 8 (String.length s)) as [H|H]; cbn [Nat.b2n]; [|lia].
    destruct (Nat.leb_spec 8 (String.length pre
                              + (String.length s + String.length post)));
      cbn [Nat.b2n]; lia. }
  assert (Hor : forall a b c : bool, (Nat.b2n b <= Nat.b2n (a || (b || c)))%nat)
    by (intros [] [] []; simpl; lia).
  pose proof (Hor (Str.test_class Validation.isUpper pre)
                  (Str.test_class Validation.isUpper s)
                  (Str.test_class Validation.isUpper post)).
  pose proof (Hor (Str.test_class Validation.isLower pre)
                  (Str.test_class Validation.isLower s)
                  (Str.test_class Validation.isLower post)).
  pose proof (Hor (Str.test_class Validation.isDigit pre)
                  (Str.test_class Validation.isDigit s)
                  (Str.test_class Validation.isDigit post)).
  pose proof (Hor (Str.test_class Validation.isSpecial pre)
                  (Str.test_class Validation.isSpecial s)
                  (Str.test_class Validation.isSpecial post)).
  lia.
Qed.

(** ** The forms in front of the store *)

(** X25. The reset form checks the password it is submitted with, not
    the one it stores. Its handler stops before touching the storage
    unless the password at submit time meets all five requirements and
    equals the confirmation; otherwise it calls [resetPassword] with the
    password read after the wait. So a reset made through the form stores
    a password that meets all five requirements provided the input did
    not change during the wait. *)
Theorem resetSubmit_spec (token pw0 confirm0 pw1 : string) (now : Z) (st : State) :
  ((Forms.resetSubmit token pw0 confirm0 pw1 now st).1 = Forms.Blocked
     <-> ~ (meets_all pw0 /\ confirm0 = pw0))
  /\ ((Forms.resetSubmit token pw0 confirm0 pw1 now st).1 = Forms.Blocked ->
        (Forms.resetSubmit token pw0 confirm0 pw1 now st).2 = st)
  /\ (meets_all pw0 -> confirm0 = pw0 ->
        Forms.resetSubmit token pw0 confirm0 pw1 now st
        = (Forms.Called (resetPassword token pw1 now st).1,
           (resetPassword token pw1 now st).2))
  /\ (forall msg,
        (Forms.resetSubmit token pw0 confirm0 pw1 now st).1
          = Forms.Called (Success msg) ->
        pw1 = pw0 ->
        exists i u,
          getUsers (Forms.resetSubmit token pw0 confirm0 pw1 now st).2 !! i = Some u
          /\ password u = pw1 /\ meets_all (password u)).
Proof.
  pose proof (validatePassword_strong pw0) as Hstrong.
  pose proof (validatePasswordMatch_valid pw0 confirm0) as Hmatch.
  unfold Forms.resetSubmit.
  destruct (Validation.valid (Validation.validatePassword pw0 true)) eqn:Hv;
    [destruct (Validation.valid (Fields.validatePasswordMatch pw0 confirm0)) eqn:Hc|];
    cbn [negb orb].
  - assert (meets_all pw0) as Hall by by apply Hstrong.
    assert (confirm0 = pw0) as -> by (symmetry; by apply Hmatch).
    destruct (resetPassword token pw1 now st) as [result st'] eqn:Hres.
    cbn [fst snd]. split; [|split; [|split]].
    + split; [done|]. intros H. by destruct H.
    + done.
    + done.
    + intros msg [= ->] ->.
      destruct (resetPassword_success_inv _ _ _ _ _ _ Hres)
        as (rd & i & u & Hrd & -> & Hnow & Hfm).
      destruct (resetPassword_success pw0 now st rd i u Hrd Hnow Hfm)
        as (st2 & Hres2 & Hus & _).
      rewrite Hres in Hres2. injection Hres2 as _ <-.
      exists i, (set_password pw0 u). rewrite (getUsers_stored _ _ Hus).
      split; [|done]. rewrite list_lookup_alter_eq.
      destruct Hfm as (-> & _). done.
  - cbn [fst snd]. split; [|split; [|split]]; try done.
    + split; [|done]. intros _ [Hall ->].
      assert (false = true); [|done].
      apply Hmatch. split; [by apply meets_all_not_all_space|done].
    + intros Hall ->.
      assert (false = true); [|done].
      apply Hmatch. split; [by apply meets_all_not_all_space|done].
  - cbn [fst snd]. split; [|split; [|split]]; try done.
    + split; [|done]. intros _ [Hall _]. by apply Hstrong in Hall.
    + intros Hall. by apply Hstrong in Hall.
Qed.

Lemma resetSubmit_spec_witness :
  Forms.resetSubmit "reset_abc" "Abcdef1!" "Abcdef1!" "weak" 1700000000000
    (on_storage (with_reset (Some (mkReset "user@example.com" "reset_abc"
                                           1700000000000)))
                (pageLoad fresh))
  = (Forms.Called
       (resetPassword "reset_abc" "weak" 1700000000000
          (on_storage (with_reset (Some (mkReset "user@example.com" "reset_abc"
                                                 1700000000000)))
                      (pageLoad fresh))).1,
     (resetPassword "reset_abc" "weak" 1700000000000
        (on_storage (with_reset (Some (mkReset "user@example.com" "reset_abc"
                                               1700000000000)))
                    (pageLoad fresh))).2).
Proof.
  apply (proj1 (proj2 (proj2 (resetSubmit_spec "reset_abc" "Abcdef1!" "Abcdef1!" "weak"
           1700000000000
           (on_storage (with_reset (Some (mkReset "user@example.com" "reset_abc"
                                                  1700000000000)))
                       (pageLoad fresh)))))).
  - apply allMet_spec. reflexivity.
  - reflexivity.
Defined.

(** X26. The login form creates a session only for a login that
    succeeds. Its handler stops before touching the storage unless the
    email at submit time has the shape of an address and the password at
    submit time has a character other than white space; otherwise it
    calls [validateLogin] with the values read after the wait, and it
    stores a session, for exactly the user that call returned, when and
    only when the call succeeds. In every other case the state is left as
    it is. *)
Theorem loginSubmit_spec (e0 p0 e1 p1 : string) (t_login t_now : Z) (st : State) :
  ((Forms.loginSubmit e0 p0 e1 p1 t_login t_now st).1 = Forms.Blocked
     <-> ~ (email_shape e0 /\ ~ all_space p0))
  /\ (forall v,
        (Forms.loginSubmit e0 p0 e1 p1 t_login t_now st).1
          = Forms.Called (Success v)
        <-> email_shape e0 /\ ~ all_space p0 /\ validateLogin e1 p1 st = Success v)
  /\ (forall v,
        (Forms.loginSubmit e0 p0 e1 p1 t_login t_now st).1
          = Forms.Called (Success v) ->
        (Forms.loginSubmit e0 p0 e1 p1 t_login t_now st).2
          = createSession v t_login t_now st)
  /\ ((forall v, (Forms.loginSubmit e0 p0 e1 p1 t_login t_now st).1
                   <> Forms.Called (Success v)) ->
        (Forms.loginSubmit e0 p0 e1 p1 t_login t_now st).2 = st).
Proof.
  pose proof (validateEmail_valid e0) as He.
  pose proof (validateRequired_valid p0) as Hp.
  unfold Forms.loginSubmit.
  destruct (Validation.valid (Fields.validateEmail e0));
    [destruct (Validation.valid (Fields.validateRequired p0))|]; cbn [negb orb].
  - assert (email_shape e0) as Hshape by by apply He.
    assert (~ all_space p0) as Hpw by by apply Hp.
    destruct (validateLogin e1 p1 st) as [user|err]; cbn [fst snd].
    + split; [|split; [|split]].
      * split; [done|]. intros H. by destruct H.
      * intros v. split; [by intros [= ->]|by intros (_ & _ & [= ->])].
      * by intros v [= ->].
      * intros H. by destruct (H user).
    + split; [|split; [|split]].
      * split; [done|]. intros H. by destruct H.
      * intros v. split; [done|by intros (_ & _ & ?)].
      * done.
      * done.
  - cbn [fst snd]. split; [|split; [|split]]; try done.
    + split; [|done]. intros _ [_ Hpw]. by apply Hp in Hpw.
    + intros v. split; [done|]. intros (_ & Hpw & _). by apply Hp in Hpw.
  - cbn [fst snd]. split; [|split; [|split]]; try done.
    + split; [|done]. intros _ [Hs _]. by apply He in Hs.
    + intros v. split; [done|]. intros (Hs & _). by apply He in Hs.
Qed.

Lemma loginSubmit_spec_witness :
  (Forms.loginSubmit "user@example.com" "User@123" "user@example.com" "wrong"
     1700000000000 1700000000000 (pageLoad fresh)).2
  = pageLoad fresh.
Proof.
  apply (proj2 (proj2 (proj2 (loginSubmit_spec "user@example.com" "User@123"
           "user@example.com" "wrong" 1700000000000 1700000000000 (pageLoad fresh))))).
  intros v. vm_compute. discriminate.
Defined.

(** ** Logins that do not ask for a password *)

Lemma find_fmap {A B : Type} (f : A -> B) (p : B -> bool) (l : list A) :
  find p (f <$> l) = f <$> find (fun x => p (f x)) l.
Proof.
  induction l as [|a l IH]; [done|]. cbn. by destruct (p (f a)).
Qed.

Lemma loginWithSSO_by_views (d : string) (st : State) :
  loginWithSSO d st
  = match find (fun v => String.eqb (v_type v) "enterprise"
                         && Str.endsWith (v_email v) ("@" ++ d))
               (sanitize <$> getUsers st) with
    | Some v => Success v
    | None => Failure NoEnterpriseMatch
    end.
Proof.
  unfold loginWithSSO. rewrite find_fmap.
  pose proof (head_filter (fun u => String.eqb (type u) "enterprise"
                && Str.endsWith (email u) ("@" ++ d)) (getUsers st)) as Hh.
  change (find (fun x => String.eqb (v_type (sanitize x)) "enterprise"
                         && Str.endsWith (v_email (sanitize x)) ("@" ++ d))
               (getUsers st))
    with (find (fun u => String.eqb (type u) "enterprise"
                         && Str.endsWith (email u) ("@" ++ d)) (getUsers st)).
  rewrite <- Hh. by destruct (List.filter _ (getUsers st)).
Qed.

Lemma loginWithGoogle_by_views (h : option string) (st : State) :
  loginWithGoogle h st
  = let chosen := match h with
                  | Some s => if Str.truthy s then Some s else None
                  | None => None
                  end in
    match match chosen with
          | Some s => find (fun v => String.eqb (v_email v) s) (sanitize <$> getUsers st)
          | None => find (fun v => String.eqb (v_type v) "normal")
                         (sanitize <$> getUsers st)
          end with
    | Some v => Success v
    | None => Success (mkView (default "google.user@gmail.com" chosen)
                              "Attendee" "normal" "Google User")
    end.
Proof.
  unfold loginWithGoogle. cbv zeta.
  destruct (match h with Some s => if Str.truthy s then Some s else None | None => None end)
    as [s|]; rewrite find_fmap.
  - change (find (fun x => String.eqb (v_email (sanitize x)) s) (getUsers st))
      with (find (fun u => String.eqb (email u) s) (getUsers st)).
    by destruct (find _ (getUsers st)).
  - change (find (fun x => String.eqb (v_type (sanitize x)) "normal") (getUsers st))
      with (find (fun u => String.eqb (type u) "normal") (getUsers st)).
    by destruct (find _ (getUsers st)).
Qed.

(** X27. The simulated single sign-on and Google logins do not depend
    on any password: in every reachable state, however many passwords
    have been reset, [loginWithSSO] and [loginWithGoogle] resolve to what
    they resolve to on the seed list. In particular [loginWithSSO] of
    ["intuvia.com"] always gives the Super Admin, and [loginWithGoogle]
    without a hint always gives the first normal user of the seed list. *)
Theorem passwordless_logins_fixed (st : State) (d : string) (h : option string) :
  reachable st ->
  loginWithSSO d st = loginWithSSO d fresh
  /\ loginWithGoogle h st = loginWithGoogle h fresh
  /\ loginWithSSO "intuvia.com" st
     = Success (mkView "superadmin@intuvia.com" "Super Admin" "enterprise" "John Smith")
  /\ loginWithGoogle None st
     = Success (mkView "user@example.com" "Attendee" "normal" "Emily Davis").
Proof.
  intros Hr. pose proof (reachable_users_sanitize st Hr) as Hs.
  assert (Hsso : forall d', loginWithSSO d' st = loginWithSSO d' fresh).
  { intros d'. rewrite !loginWithSSO_by_views, Hs. done. }
  assert (Hg : forall h', loginWithGoogle h' st = loginWithGoogle h' fresh).
  { intros h'. rewrite !loginWithGoogle_by_views, Hs. done. }
  split; [apply Hsso|]. split; [apply Hg|]. split.
  - rewrite Hsso. reflexivity.
  - rewrite Hg. reflexivity.
Qed.

Lemma passwordless_logins_fixed_witness :
  loginWithSSO "intuvia.com"
    (exec (OpResetPassword "reset_abc0" "Zz9!zzzz" 5)
       (exec (OpForgotPassword "abc" 0 0 "superadmin@intuvia.com") fresh))
  = Success (mkView "superadmin@intuvia.com" "Super Admin" "enterprise" "John Smith").
Proof.
  apply (passwordless_logins_fixed
           (exec (OpResetPassword "reset_abc0" "Zz9!zzzz" 5)
              (exec (OpForgotPassword "abc" 0 0 "superadmin@intuvia.com") fresh))
           "intuvia.com" None).
  apply reach_step, reach_step, reach_fresh.
Defined.
